(** * MediaDownloader (src/script.js): a shallow embedding and its properties

    The script is one class, [MediaDownloader], living in a browser page.
    The embedding keeps the data as JavaScript has it:

    - a string is its sequence of UTF-16 code units;
    - a value is one of the dynamically typed values that [JSON.parse] or an
      object literal of the script can build;
    - a method is a computation over the fields of the instance and the page
      elements it touches, in a state monad in which a raised exception keeps
      the mutations done before it;
    - an [async] call is cut at its [await]s: a suspended call is a [task],
      and the browser resumes it with an [event].

    What the page and the engine supply is an input of the model: the text
    found in the storage, the answers of the server, the keys and clicks of
    the user, the time of day. The elements that the script looks up by id
    or by class are taken to exist, and [localStorage] to accept what is
    written to it. *)

From Stdlib Require Import NArith ZArith String Ascii List Bool Lia.
From stdpp Require Import base decidable option list numbers.
Import ListNotations.

Set Warnings "-register-all".
Local Open Scope N_scope.

(** ** Strings *)

(** A JavaScript string: UTF-16 code units, each below 65536. *)
Definition jsstring := list N.

(** An ASCII literal of the script as a JavaScript string. *)
Definition js (s : string) : jsstring :=
  List.map N_of_ascii (list_ascii_of_string s).

Definition unit_eqb : N -> N -> bool := N.eqb.

Fixpoint str_eqb (s t : jsstring) : bool :=
  match s, t with
  | [], [] => true
  | c :: s', d :: t' => unit_eqb c d && str_eqb s' t'
  | _, _ => false
  end.

Definition in_range (lo hi c : N) : bool := (lo <=? c) && (c <=? hi).

(** WhiteSpace and LineTerminator code points of ECMAScript: what
    [String.prototype.trim] strips from both ends. *)
Definition is_white (c : N) : bool :=
  in_range 9 13 c || (c =? 32) || (c =? 160) || (c =? 5760)
  || in_range 8192 8202 c || (c =? 8232) || (c =? 8233) || (c =? 8239)
  || (c =? 8287) || (c =? 12288) || (c =? 65279).

Fixpoint trim_start (s : jsstring) : jsstring :=
  match s with
  | c :: s' => if is_white c then trim_start s' else s
  | [] => []
  end.

Definition trim_end (s : jsstring) : jsstring := rev (trim_start (rev s)).

(** [s.trim()] *)
Definition trim (s : jsstring) : jsstring := trim_end (trim_start s).

(** ** Values *)

(** A number of JavaScript is a binary64: (-1)^negative * mantissa * 2^exponent,
    or an infinity. A whole number is written with the exponent 0, any other
    with an odd mantissa, so that a number has one writing. NaN is left out:
    the numbers of the script are lengths and what [JSON.parse] reads, and
    neither is ever NaN. *)
Inductive number :=
| Num (negative : bool) (mantissa : N) (exponent : Z)
| Inf (negative : bool).

Definition of_length (n : nat) : number := Num false (N.of_nat n) 0.

Inductive value :=
| VUndefined
| VNull
| VBool (b : bool)
| VNum (n : number)
| VStr (s : jsstring)
| VArr (elems : list value)
| VObj (props : list (jsstring * value)).

(** Errors the engine raises itself; the text of their [message] is the
    engine's own. *)
Inductive engine_error := TypeError | SyntaxError | URIError.

(** A template literal, kept as its parts: the string conversion of a number
    or an object is the engine's, so an interpolated value stays a value. *)
Inductive piece :=
| Text (s : jsstring)
| Shown (v : value)              (* `${v}` *)
| Upper (s : jsstring)           (* `${s.toUpperCase()}` *)
| EngineText (k : engine_error).

Definition template := list piece.

Inductive exn :=
| Engine (k : engine_error)
| UserError (m : template)       (* new Error(m) *)
| Rejection (m : jsstring).      (* a rejected promise of the page: error.message is m *)

(** [error.message] *)
Definition message_of (e : exn) : template :=
  match e with
  | Engine k => [EngineText k]
  | UserError m => m
  | Rejection m => [Text m]
  end.

Inductive completion (A : Type) :=
| Normal (a : A)
| Throw (e : exn).
Arguments Normal {A} a.
Arguments Throw {A} e.

(** Own property [k] of an object literal or of a parsed object: the last
    binding of a repeated key wins. *)
Fixpoint own_prop (k : jsstring) (props : list (jsstring * value)) : option value :=
  match props with
  | [] => None
  | (k', v) :: rest =>
      match own_prop k rest with
      | Some w => Some w
      | None => if str_eqb k k' then Some v else None
      end
  end.

Definition is_length (k : jsstring) : bool := str_eqb k (js "length").

(** [v.k] for the property names the script reads ([length], [status],
    [title], [files], ...): none of them is an array index or a member of a
    prototype other than [length]. Reading a property of [undefined] or
    [null] raises a TypeError. *)
Definition get_prop (v : value) (k : jsstring) : completion value :=
  match v with
  | VUndefined | VNull => Throw (Engine TypeError)
  | VBool _ | VNum _ => Normal VUndefined
  | VStr s => Normal (if is_length k then VNum (of_length (length s)) else VUndefined)
  | VArr l => Normal (if is_length k then VNum (of_length (length l)) else VUndefined)
  | VObj props => Normal (default VUndefined (own_prop k props))
  end.

(** [+0] and [-0] *)
Definition is_zero (n : number) : bool :=
  match n with
  | Num _ mantissa _ => mantissa =? 0
  | Inf _ => false
  end.

(** ToBoolean *)
Definition truthy (v : value) : bool :=
  match v with
  | VUndefined | VNull => false
  | VBool b => b
  | VNum n => negb (is_zero n)
  | VStr s => negb (str_eqb s [])
  | VArr _ | VObj _ => true
  end.

(** [a || b] on values already evaluated (both operands of every [||] of the
    script are free of effects). *)
Definition js_or (a b : value) : value := if truthy a then a else b.

Definition nullish (v : value) : bool :=
  match v with VUndefined | VNull => true | _ => false end.

(** [v === 'lit'] *)
Definition is_str (v : value) (lit : jsstring) : bool :=
  match v with VStr s => str_eqb s lit | _ => false end.

(** [v === 0] *)
Definition is_num_zero (v : value) : bool :=
  match v with VNum n => is_zero n | _ => false end.

(** ToString and ToPrimitive raise a TypeError on an object that carries an
    own property [toString] (a parsed value is never callable, and
    [Object.prototype.valueOf] returns the object itself); an array is joined,
    which converts its elements. *)
Fixpoint unprintable (v : value) : bool :=
  match v with
  | VObj props => match own_prop (js "toString") props with Some _ => true | None => false end
  | VArr l => existsb unprintable l
  | _ => false
  end.

(** The piece an interpolated value contributes when it prints. *)
Definition shown (v : value) : piece :=
  match v with VStr s => Text s | _ => Shown v end.

(** The interpolation `${v}`. *)
Definition show (v : value) : completion piece :=
  if unprintable v then Throw (Engine TypeError) else Normal (shown v).

(** ** Regular expressions of [validateUrl] *)

Inductive regex :=
| Lit (s : jsstring)
| Seq (r1 r2 : regex)
| Alt (r1 r2 : regex).

Fixpoint strip_prefix (p s : jsstring) : option jsstring :=
  match p, s with
  | [], _ => Some s
  | c :: p', d :: s' => if unit_eqb c d then strip_prefix p' s' else None
  | _ :: _, [] => None
  end.

(** What is left of [s] after each way of matching [r] at its start. *)
Fixpoint residuals (r : regex) (s : jsstring) : list jsstring :=
  match r with
  | Lit p => match strip_prefix p s with Some s' => [s'] | None => [] end
  | Seq r1 r2 => flat_map (residuals r2) (residuals r1 s)
  | Alt r1 r2 => residuals r1 s ++ residuals r2 s
  end.

Definition matches_at (r : regex) (s : jsstring) : bool :=
  match residuals r s with [] => false | _ :: _ => true end.

(** [r.test(s)] for a pattern without flags: a match may start anywhere. *)
Fixpoint regex_test (r : regex) (s : jsstring) : bool :=
  matches_at r s ||
  match s with
  | [] => false
  | _ :: s' => regex_test r s'
  end.

(** ** Exceptions as a monad *)

Definition completion_bind {A B} (f : A -> completion B) (c : completion A) : completion B :=
  match c with
  | Normal a => f a
  | Throw e => Throw e
  end.

#[global] Instance completion_mret : MRet completion := fun A a => Normal a.
#[global] Instance completion_mbind : MBind completion := fun A B f c => completion_bind f c.

(** A loop body run on each element in order; the first exception ends it. *)
Fixpoint for_each {A} (body : A -> completion unit) (l : list A) : completion unit :=
  match l with
  | [] => Normal tt
  | a :: l' => body a ;; for_each body l'
  end.

(** ** [encodeURIComponent] *)

(** uriUnescaped: letters, digits and [- _ . ! ~ * ' ( )]. *)
Definition unreserved (c : N) : bool :=
  in_range 48 57 c || in_range 65 90 c || in_range 97 122 c
  || existsb (unit_eqb c) (js "-_.!~*'()").

Definition hex_digit (n : N) : N := nth (N.to_nat n) (js "0123456789ABCDEF") 48.

(** One octet as [%XX], upper case. *)
Definition percent (octet : N) : jsstring :=
  [37; hex_digit (N.shiftr octet 4); hex_digit (N.land octet 15)].

(** The UTF-8 octets of a code point. *)
Definition utf8 (cp : N) : list N :=
  if cp <? 128 then [cp]
  else if cp <? 2048 then [192 + cp / 64; 128 + cp mod 64]
  else if cp <? 65536 then [224 + cp / 4096; 128 + (cp / 64) mod 64; 128 + cp mod 64]
  else [240 + (cp / 262144) mod 8; 128 + (cp / 4096) mod 64; 128 + (cp / 64) mod 64; 128 + cp mod 64].

Definition is_lead (c : N) : bool := in_range 55296 56319 c.
Definition is_trail (c : N) : bool := in_range 56320 57343 c.

(** The code point of a surrogate pair. *)
Definition pair_point (lead trail : N) : N := (lead - 55296) * 1024 + (trail - 56320) + 65536.

Definition escape (cp : N) : jsstring := flat_map percent (utf8 cp).

(** [encodeURIComponent(s)]: an unreserved unit is copied, any other code
    point is replaced by the escapes of its UTF-8 octets, a surrogate without
    its partner raises a URIError. *)
Fixpoint encodeURIComponent (s : jsstring) : completion jsstring :=
  match s with
  | [] => Normal []
  | c :: s' =>
      if unreserved c then rest ← encodeURIComponent s'; Normal (c :: rest)
      else if is_trail c then Throw (Engine URIError)
      else if is_lead c then
        match s' with
        | d :: s'' =>
            if is_trail d
            then rest ← encodeURIComponent s''; Normal (escape (pair_point c d) ++ rest)
            else Throw (Engine URIError)
        | [] => Throw (Engine URIError)
        end
      else rest ← encodeURIComponent s'; Normal (escape c ++ rest)
  end.

(** [this.apiUrl]: assigned once, in the constructor (line 5). *)
Definition apiUrl : jsstring := js "http://localhost:5000".

(** The [href] of a file of a download (line 198), for a platform and a file
    name that are strings:
    [`${this.apiUrl}/download-file/${download.platform}/${encodeURIComponent(file)}`]. *)
Definition fileLink (platform file : jsstring) : completion jsstring :=
  encoded ← encodeURIComponent file;
  Normal (apiUrl ++ js "/download-file/" ++ platform ++ js "/" ++ encoded).

(** ** Rendering the history (lines 168-213)

    The markup goes to [innerHTML] and [textContent] of page elements that the
    script never reads back: the model keeps what rendering can raise, since
    that decides how its callers go on, and not the markup. *)

(** Whether [encodeURIComponent] accepts the string of a value: the string of
    an array joins the strings of its elements with commas, every other
    value that is not a string prints in ASCII. *)
Fixpoint encodable (v : value) : bool :=
  match v with
  | VStr s => match encodeURIComponent s with Normal _ => true | Throw _ => false end
  | VArr l => forallb encodable l
  | _ => true
  end.

(** [encodeURIComponent(file)] on any value. *)
Definition encode_value (file : value) : completion unit :=
  show file ;;
  if encodable file then Normal tt else Throw (Engine URIError).

(** lines 193-202 *)
Definition renderDownloadLinks (download : value) : completion unit :=
  files ← get_prop download (js "files");
  if negb (truthy files) then Normal tt else
  len ← get_prop files (js "length");
  if is_num_zero len then Normal tt else
  match files with
  | VArr fl =>
      for_each (fun file =>
        platform ← get_prop download (js "platform");
        show platform ;;
        encode_value file ;;
        show file ;;
        Normal tt) fl
  | _ => Throw (Engine TypeError)      (* download.files.map is not a function *)
  end.

(** lines 204-213: [new Date(timestamp)] converts its argument to a
    primitive; nothing after it can raise. *)
Definition formatTime (timestamp : value) : completion unit :=
  if unprintable timestamp then Throw (Engine TypeError) else Normal tt.

(** line 178, the callback of [reduce]: [sum + (d.files?.length || 0)]. *)
Definition count_files (d : value) : completion unit :=
  files ← get_prop d (js "files");
  len ← (if nullish files then Normal VUndefined else get_prop files (js "length"));
  if unprintable (js_or len (VNum (of_length 0))) then Throw (Engine TypeError) else Normal tt.

(** lines 181-190, the callback of [map]. *)
Definition render_item (download : value) : completion unit :=
  title ← get_prop download (js "title");
  show title ;;
  platform ← get_prop download (js "platform");
  show platform ;;
  files ← get_prop download (js "files");
  (if truthy files then renderDownloadLinks download else Normal tt) ;;
  timestamp ← get_prop download (js "timestamp");
  formatTime timestamp.

(** lines 168-191, as a function of [this.downloads]. *)
Definition render_downloads (downloads : value) : completion unit :=
  len ← get_prop downloads (js "length");
  if is_num_zero len then Normal tt else
  match downloads with
  | VArr l => for_each count_files l ;; for_each render_item l
  | _ => Throw (Engine TypeError)      (* this.downloads.reduce is not a function *)
  end.

(** ** [JSON.parse]

    The grammar of ECMA-404, on code units: a lexer that reads one unit at a
    time, then a stack automaton over the tokens. Neither needs fuel. *)

Inductive token :=
| TLBrace | TRBrace | TLBracket | TRBracket | TColon | TComma
| TScalar (v : value).

Definition is_digit (c : N) : bool := in_range 48 57 c.

Fixpoint take_digits (s : jsstring) : jsstring * jsstring :=
  match s with
  | c :: s' => if is_digit c then let '(ds, rest) := take_digits s' in (c :: ds, rest) else ([], s)
  | [] => ([], [])
  end.

Definition digits_value (ds : jsstring) : N :=
  fold_left (fun acc c => 10 * acc + (c - 48)) ds 0.

(** The Number value of a decimal, as [JSON.parse] takes it: the binary64
    nearest to (-1)^negative * m * 10^e10, the one with the even significand
    when two are as near. The decimal is the fraction [p / q]; [k] is the
    exponent of the last binary place that a binary64 of this size keeps,
    not below -1074; [n] is the significand. A decimal of at most half of
    2^-1074 becomes a zero, one that reaches 2^1024 - 2^970 an infinity.
    (ECMAScript lets an engine cut a literal after its 20th significant
    digit before it rounds; V8, SpiderMonkey and JavaScriptCore read the
    nearest number of the whole literal, which is what stands here.) *)

(** Whether [p / q >= 2^d], for [p] and [q] above zero. *)
Definition reaches (p q d : Z) : bool :=
  (q * 2 ^ Z.max 0 d <=? p * 2 ^ Z.max 0 (- d))%Z.

(** The whole part of the binary logarithm of [p / q]. *)
Definition log2_floor (p q : Z) : Z :=
  let d := (Z.log2 p - Z.log2 q)%Z in
  if reaches p q d then d else (d - 1)%Z.

(** [num / den] to the nearest whole number, to the even one at a tie. *)
Definition nearest_even (num den : Z) : Z :=
  let q := (num / den)%Z in
  match (2 * (num mod den) ?= den)%Z with
  | Lt => q
  | Gt => (q + 1)%Z
  | Eq => if Z.even q then q else (q + 1)%Z
  end.

(** Halving an even mantissa while the exponent is below zero. *)
Fixpoint lowest (mantissa : positive) (exponent : Z) : positive * Z :=
  match mantissa with
  | xO half => if (exponent <? 0)%Z then lowest half (exponent + 1) else (mantissa, exponent)
  | _ => (mantissa, exponent)
  end.

(** The number [n * 2^k] in its one writing. *)
Definition dyadic (negative : bool) (n k : Z) : number :=
  match n with
  | Zpos mantissa =>
      if (0 <=? k)%Z then Num negative (Z.to_N (n * 2 ^ k)) 0
      else let '(odd, e) := lowest mantissa k in Num negative (Npos odd) e
  | _ => Num negative 0 0
  end.

Definition binary64 (negative : bool) (m : N) (e10 : Z) : number :=
  if m =? 0 then Num negative 0 0 else
  let p := (Z.of_N m * 10 ^ Z.max 0 e10)%Z in
  let q := (10 ^ Z.max 0 (- e10))%Z in
  let k := Z.max (log2_floor p q - 52) (-1074) in
  let n := nearest_even (p * 2 ^ Z.max 0 (- k)) (q * 2 ^ Z.max 0 k) in
  if (0 <=? k)%Z && (2 ^ 1024 <=? n * 2 ^ k)%Z then Inf negative
  else dyadic negative n k.

(** A number of JSON: an optional minus; an integer part without a leading
    zero unless it is the digit 0 alone; an optional dot with one digit or
    more; an optional exponent, [e] or [E], an optional sign, one digit or
    more. Its value is the decimal it writes, rounded to a binary64. *)
Definition parse_number (w : jsstring) : option number :=
  let '(neg, w1) := match w with 45 :: r => (true, r) | _ => (false, w) end in
  let '(int, w2) := take_digits w1 in
  match int with
  | [] => None
  | d :: more =>
      if (d =? 48) && negb (str_eqb more []) then None else
      let frac_part :=
        match w2 with
        | 46 :: r => let '(fr, w3) := take_digits r in
                     match fr with [] => None | _ => Some (fr, w3) end
        | _ => Some ([], w2)
        end in
      match frac_part with
      | None => None
      | Some (fr, w3) =>
          let exp_part :=
            match w3 with
            | [] => Some 0%Z
            | e :: r =>
                if (e =? 101) || (e =? 69) then
                  let '(minus, r1) :=
                    match r with
                    | 45 :: r' => (true, r')
                    | 43 :: r' => (false, r')
                    | _ => (false, r)
                    end in
                  let '(ex, w4) := take_digits r1 in
                  match ex, w4 with
                  | _ :: _, [] =>
                      let n := Z.of_N (digits_value ex) in
                      Some (if minus then (- n)%Z else n)
                  | _, _ => None
                  end
                else None
            end in
          match exp_part with
          | None => None
          | Some ex =>
              Some (binary64 neg (digits_value (int ++ fr)) (ex - Z.of_nat (length fr)))
          end
      end
  end.

(** A maximal run of letters, digits, signs and dots is one scalar: a
    literal name or a number. *)
Definition scalar_of_word (w : jsstring) : option value :=
  if str_eqb w (js "true") then Some (VBool true)
  else if str_eqb w (js "false") then Some (VBool false)
  else if str_eqb w (js "null") then Some VNull
  else VNum <$> parse_number w.

Definition is_word_unit (c : N) : bool :=
  is_digit c || in_range 65 90 c || in_range 97 122 c
  || (c =? 43) || (c =? 45) || (c =? 46).

Definition is_json_space (c : N) : bool :=
  (c =? 32) || (c =? 9) || (c =? 10) || (c =? 13).

Definition hex_value (c : N) : option N :=
  if is_digit c then Some (c - 48)
  else if in_range 65 70 c then Some (c - 55)
  else if in_range 97 102 c then Some (c - 87)
  else None.

Inductive lexing :=
| LStart
| LWord (acc : jsstring)                       (* units read, last first *)
| LString (acc : jsstring)
| LEscape (acc : jsstring)                     (* after a backslash *)
| LHex (acc : jsstring) (todo : nat) (code : N). (* inside \uXXXX, [todo] digits to read *)

Definition punctuation (c : N) : option token :=
  if c =? 123 then Some TLBrace
  else if c =? 125 then Some TRBrace
  else if c =? 91 then Some TLBracket
  else if c =? 93 then Some TRBracket
  else if c =? 58 then Some TColon
  else if c =? 44 then Some TComma
  else None.

(** A unit read between two tokens; [out] holds the tokens, last first. *)
Definition lex_start (out : list token) (c : N) : option (lexing * list token) :=
  if is_json_space c then Some (LStart, out)
  else if c =? 34 then Some (LString [], out)
  else if is_word_unit c then Some (LWord [c], out)
  else t ← punctuation c; Some (LStart, t :: out).

Definition escaped (c : N) : option N :=
  if c =? 34 then Some 34
  else if c =? 92 then Some 92
  else if c =? 47 then Some 47
  else if c =? 98 then Some 8
  else if c =? 102 then Some 12
  else if c =? 110 then Some 10
  else if c =? 114 then Some 13
  else if c =? 116 then Some 9
  else None.

Definition lex_step (st : lexing * list token) (c : N) : option (lexing * list token) :=
  let '(l, out) := st in
  match l with
  | LStart => lex_start out c
  | LWord acc =>
      if is_word_unit c then Some (LWord (c :: acc), out)
      else v ← scalar_of_word (rev acc); lex_start (TScalar v :: out) c
  | LString acc =>
      if c =? 34 then Some (LStart, TScalar (VStr (rev acc)) :: out)
      else if c =? 92 then Some (LEscape acc, out)
      else if c <? 32 then None
      else Some (LString (c :: acc), out)
  | LEscape acc =>
      if c =? 117 then Some (LHex acc 4%nat 0, out)
      else e ← escaped c; Some (LString (e :: acc), out)
  | LHex acc todo code =>
      h ← hex_value c;
      let code' := 16 * code + h in
      match todo with
      | 1%nat => Some (LString (code' :: acc), out)
      | _ => Some (LHex acc (pred todo) code', out)
      end
  end.

Fixpoint lex_from (st : lexing * list token) (s : jsstring) : option (lexing * list token) :=
  match s with
  | [] => Some st
  | c :: s' => st' ← lex_step st c; lex_from st' s'
  end.

Definition lex (s : jsstring) : option (list token) :=
  st ← lex_from (LStart, []) s;
  match st with
  | (LStart, out) => Some (rev out)
  | (LWord acc, out) => v ← scalar_of_word (rev acc); Some (rev (TScalar v :: out))
  | _ => None
  end.

(** A container under construction; items and members are held last first. *)
Inductive container :=
| CArr (items : list value)
| CObj (members : list (jsstring * value)) (key : option jsstring).

Inductive expecting :=
| EValue (may_close : bool)      (* a value; [may_close]: just after an opening bracket *)
| EKey (may_close : bool)        (* a member name; [may_close]: just after an opening brace *)
| EColon
| ENext                          (* a comma or the end of the container *)
| EDone (v : value).             (* the text is one complete value *)

(** A complete value goes into the container on top of the stack. *)
Definition push_value (v : value) (stack : list container) : option (expecting * list container) :=
  match stack with
  | [] => Some (EDone v, [])
  | CArr items :: rest => Some (ENext, CArr (v :: items) :: rest)
  | CObj members (Some k) :: rest => Some (ENext, CObj ((k, v) :: members) None :: rest)
  | CObj _ None :: _ => None
  end.

Definition parse_step (st : expecting * list container) (t : token)
  : option (expecting * list container) :=
  let '(e, stack) := st in
  match e, t with
  | EValue _, TScalar v => push_value v stack
  | EValue _, TLBracket => Some (EValue true, CArr [] :: stack)
  | EValue _, TLBrace => Some (EKey true, CObj [] None :: stack)
  | EValue true, TRBracket =>
      match stack with
      | CArr [] :: rest => push_value (VArr []) rest
      | _ => None
      end
  | EKey _, TScalar (VStr k) =>
      match stack with
      | CObj members None :: rest => Some (EColon, CObj members (Some k) :: rest)
      | _ => None
      end
  | EKey true, TRBrace =>
      match stack with
      | CObj [] None :: rest => push_value (VObj []) rest
      | _ => None
      end
  | EColon, TColon => Some (EValue false, stack)
  | ENext, TComma =>
      match stack with
      | CArr _ :: _ => Some (EValue false, stack)
      | CObj _ None :: _ => Some (EKey false, stack)
      | _ => None
      end
  | ENext, TRBracket =>
      match stack with
      | CArr items :: rest => push_value (VArr (rev items)) rest
      | _ => None
      end
  | ENext, TRBrace =>
      match stack with
      | CObj members None :: rest => push_value (VObj (rev members)) rest
      | _ => None
      end
  | _, _ => None
  end.

Fixpoint parse_from (st : expecting * list container) (ts : list token)
  : option (expecting * list container) :=
  match ts with
  | [] => Some st
  | t :: ts' => st' ← parse_step st t; parse_from st' ts'
  end.

(** [JSON.parse(source)]; a source outside the grammar raises a SyntaxError. *)
Definition JSON_parse (source : jsstring) : completion value :=
  match ts ← lex source; parse_from (EValue false, []) ts with
  | Some (EDone v, _) => Normal v
  | _ => Throw (Engine SyntaxError)
  end.

(** ** The instance and the page *)

(** The second argument of [logStatus]. *)
Inductive severity := info | success | error.

(** One line appended to [#statusLog]: the message and the class
    [status-info], [status-success] or [status-error]. (The time of day that
    [logStatus] prints in front of it is the clock's.) *)
Record StatusEvent := { message : template; type : severity }.

(** A call of [fetch]. *)
Inductive request :=
| PostDownload (url platform : jsstring)   (* POST /download with the body {url, platform} *)
| GetStatus (downloadId : piece).          (* GET /status/${downloadId} *)

(** A call of [startDownload] suspended at an [await]. Between the [await]
    on a response and the [await] on its body the script runs nothing, so
    the two are one suspension. *)
Inductive task :=
| AwaitSubmit (url : jsstring)                      (* lines 102 and 108 *)
| AwaitStatus (downloadId : value) (url : jsstring) (* lines 124 and 125 *)
| AwaitDelay (downloadId : value) (url : jsstring). (* line 149 *)

Record app := {
  currentPlatform : jsstring;         (* this.currentPlatform *)
  downloads : value;                  (* this.downloads *)
  bound : bool;                       (* the listeners of bindEvents are installed *)
  urlInput : jsstring;                (* #urlInput.value *)
  disabled : bool;                    (* #downloadBtn.disabled *)
  caption : jsstring;                 (* #downloadBtn.textContent *)
  statusLog : list StatusEvent;       (* #statusLog, oldest line first *)
  persisted : option value;           (* the value last serialized into localStorage['downloads'] *)
  network : list request;             (* the calls of fetch, oldest first *)
  pending : list task                 (* the suspended calls of startDownload *)
}.

Definition set_currentPlatform (p : jsstring) (st : app) : app :=
  {| currentPlatform := p; downloads := downloads st; bound := bound st;
     urlInput := urlInput st; disabled := disabled st; caption := caption st;
     statusLog := statusLog st; persisted := persisted st; network := network st;
     pending := pending st |}.

Definition set_downloads (v : value) (st : app) : app :=
  {| currentPlatform := currentPlatform st; downloads := v; bound := bound st;
     urlInput := urlInput st; disabled := disabled st; caption := caption st;
     statusLog := statusLog st; persisted := persisted st; network := network st;
     pending := pending st |}.

Definition set_bound (b : bool) (st : app) : app :=
  {| currentPlatform := currentPlatform st; downloads := downloads st; bound := b;
     urlInput := urlInput st; disabled := disabled st; caption := caption st;
     statusLog := statusLog st; persisted := persisted st; network := network st;
     pending := pending st |}.

Definition set_urlInput (s : jsstring) (st : app) : app :=
  {| currentPlatform := currentPlatform st; downloads := downloads st; bound := bound st;
     urlInput := s; disabled := disabled st; caption := caption st;
     statusLog := statusLog st; persisted := persisted st; network := network st;
     pending := pending st |}.

Definition set_button (d : bool) (c : jsstring) (st : app) : app :=
  {| currentPlatform := currentPlatform st; downloads := downloads st; bound := bound st;
     urlInput := urlInput st; disabled := d; caption := c;
     statusLog := statusLog st; persisted := persisted st; network := network st;
     pending := pending st |}.

Definition set_statusLog (l : list StatusEvent) (st : app) : app :=
  {| currentPlatform := currentPlatform st; downloads := downloads st; bound := bound st;
     urlInput := urlInput st; disabled := disabled st; caption := caption st;
     statusLog := l; persisted := persisted st; network := network st;
     pending := pending st |}.

Definition set_persisted (v : option value) (st : app) : app :=
  {| currentPlatform := currentPlatform st; downloads := downloads st; bound := bound st;
     urlInput := urlInput st; disabled := disabled st; caption := caption st;
     statusLog := statusLog st; persisted := v; network := network st;
     pending := pending st |}.

Definition set_network (l : list request) (st : app) : app :=
  {| currentPlatform := currentPlatform st; downloads := downloads st; bound := bound st;
     urlInput := urlInput st; disabled := disabled st; caption := caption st;
     statusLog := statusLog st; persisted := persisted st; network := l;
     pending := pending st |}.

Definition set_pending (l : list task) (st : app) : app :=
  {| currentPlatform := currentPlatform st; downloads := downloads st; bound := bound st;
     urlInput := urlInput st; disabled := disabled st; caption := caption st;
     statusLog := statusLog st; persisted := persisted st; network := network st;
     pending := l |}.

(** ** Methods: state and exceptions

    A method maps the state to the state it leaves and either its result or
    the exception it raises; what it changed before raising stays changed. *)

Definition M (A : Type) : Type := app -> app * completion A.

#[global] Instance M_mret : MRet M := fun A a st => (st, Normal a).

#[global] Instance M_mbind : MBind M := fun A B f m st =>
  match m st with
  | (st', Normal a) => f a st'
  | (st', Throw e) => (st', Throw e)
  end.

Definition read : M app := fun st => (st, Normal st).
Definition update (f : app -> app) : M unit := fun st => (f st, Normal tt).
Definition lift {A} (c : completion A) : M A := fun st => (st, c).
Definition throw {A} (e : exn) : M A := fun st => (st, Throw e).

(** [try { body } catch (error) { handler }] *)
Definition try_catch {A} (body : M A) (handler : exn -> M A) : M A := fun st =>
  match body st with
  | (st', Throw e) => handler e st'
  | r => r
  end.

(** lines 215-222 *)
Definition logStatus (msg : template) (ty : severity) : M unit :=
  update (fun st => set_statusLog (statusLog st ++ [{| message := msg; type := ty |}]) st).

(** lines 168-191 *)
Definition updateDownloadsList : M unit :=
  st ← read; lift (render_downloads (downloads st)).

(** The table of lines 89-95. *)
Definition patterns : list (jsstring * regex) :=
  [ (js "spotify",
      Seq (Lit (js "spotify.com/")) (Alt (Lit (js "track")) (Alt (Lit (js "album")) (Lit (js "playlist")))));
    (js "youtube-audio", Alt (Lit (js "youtube.com/watch")) (Lit (js "youtu.be/")));
    (js "youtube-video", Alt (Lit (js "youtube.com/watch")) (Lit (js "youtu.be/")));
    (js "tiktok", Lit (js "tiktok.com"));
    (js "twitter", Alt (Lit (js "twitter.com")) (Lit (js "x.com"))) ].

Fixpoint pattern_of (platform : jsstring) (table : list (jsstring * regex)) : option regex :=
  match table with
  | [] => None
  | (k, r) :: rest => if str_eqb platform k then Some r else pattern_of platform rest
  end.

(** The names every object literal inherits from [Object.prototype]: under
    one of them [patterns[...]] is neither [undefined] nor a pattern. *)
Definition inherited : list jsstring :=
  [ js "constructor"; js "hasOwnProperty"; js "isPrototypeOf"; js "propertyIsEnumerable";
    js "toLocaleString"; js "toString"; js "valueOf"; js "__proto__";
    js "__defineGetter__"; js "__defineSetter__"; js "__lookupGetter__"; js "__lookupSetter__" ].

(** lines 88-97: [patterns[this.currentPlatform]?.test(url) || false] *)
Definition validateUrl (url : jsstring) : M bool :=
  st ← read;
  match pattern_of (currentPlatform st) patterns with
  | Some r => mret (regex_test r url || false)
  | None =>
      if existsb (str_eqb (currentPlatform st)) inherited
      then throw (Engine TypeError)              (* its .test is not a function *)
      else mret false                            (* undefined || false *)
  end.

(** lines 36-60; the classes and the placeholder it sets on the page are not
    read by the script. *)
Definition selectPlatform (platform : jsstring) : M unit :=
  update (set_currentPlatform platform).

(** lines 159-166 *)
Definition addDownload (data : value) : M unit :=
  st ← read;
  match downloads st with
  | VArr l =>
      let unshifted := data :: l in
      let kept := if (10 <? length unshifted)%nat then take 10 unshifted else unshifted in
      update (set_downloads (VArr kept)) ;;
      update (set_persisted (Some (VArr kept))) ;;
      updateDownloadsList
  | _ => throw (Engine TypeError)                (* this.downloads.unshift is not a function *)
  end.

(** ** The asynchronous methods, cut at their [await]s

    Each piece runs from one suspension to the next and answers with the task
    the call is suspended in, or [None] when the call has returned. *)

(** How the page settles an awaited promise. *)
Inductive settled (A : Type) :=
| Fulfilled (a : A)
| Rejected (e : exn).
Arguments Fulfilled {A} a.
Arguments Rejected {A} e.

Definition await {A} (r : settled A) : M A :=
  match r with
  | Fulfilled a => mret a
  | Rejected e => throw e
  end.

Definition fetch (r : request) : M unit :=
  update (fun st => set_network (network st ++ [r]) st).

(** lines 150-153: log and [break]. *)
Definition poll_catch (err : exn) : M (option task) :=
  logStatus (Text (js "Status check failed: ") :: message_of err) error ;;
  mret None.

(** lines 122-124: an iteration of the loop up to its [fetch]. The loop is
    entered here, and entered again when the delay of line 149 has passed. *)
Definition pollDownloadStatus (downloadId : value) (url : jsstring) : M (option task) :=
  try_catch
    (id ← lift (show downloadId);
     fetch (GetStatus id) ;;
     mret (Some (AwaitStatus downloadId url)))
    poll_catch.

(** lines 131-138: the object literal; [now] is [new Date().toISOString()]. *)
Definition downloadData (platform url : jsstring) (status : value) (now : jsstring)
  : completion value :=
  title ← get_prop status (js "title");
  output_path ← get_prop status (js "output_path");
  files ← get_prop status (js "files");
  Normal (VObj [ (js "title", js_or title (VStr (js "Downloaded Media")));
                 (js "platform", VStr platform);
                 (js "url", VStr url);
                 (js "outputPath", output_path);
                 (js "files", js_or files (VArr []));
                 (js "timestamp", VStr now) ]).

(** lines 125-149: the iteration from the answer of the status request on. *)
Definition poll_settled (downloadId : value) (url : jsstring)
    (r : settled value) (now : jsstring) : M (option task) :=
  try_catch
    (status ← await r;
     state ← lift (get_prop status (js "status"));
     if is_str state (js "completed") then
       logStatus [Text (js "[SUCCESS] Download completed!")] success ;;
       logStatus [Text (js "Files ready for download")] success ;;
       st ← read;
       data ← lift (downloadData (currentPlatform st) url status now);
       addDownload data ;;
       update (set_urlInput []) ;;
       mret None
     else if is_str state (js "error") then
       reason ← lift (get_prop status (js "error"));
       shown ← lift (show reason);
       logStatus [Text (js "Error: "); shown] error ;;
       mret None
     else
       st ← read;
       shown ← lift (show state);
       logStatus [Text (js "["); Upper (currentPlatform st); Text (js "] "); shown] info ;;
       mret (Some (AwaitDelay downloadId url)))
    poll_catch.

(** lines 116-118 *)
Definition simulate_catch (err : exn) : M (option task) :=
  logStatus (Text (js "Error: ") :: message_of err) error ;;
  mret None.

(** lines 100-106: up to the [fetch] of the submission. *)
Definition simulateDownload (url : jsstring) : M (option task) :=
  try_catch
    (st ← read;
     fetch (PostDownload url (currentPlatform st)) ;;
     mret (Some (AwaitSubmit url)))
    simulate_catch.

(** [new Error(v)]: no message when [v] is [undefined], its string otherwise. *)
Definition new_Error (v : value) : completion exn :=
  match v with
  | VUndefined => Normal (UserError [])
  | _ => shown ← show v; Normal (UserError [shown])
  end.

(** lines 108-114: from the answer of the submission on; [ok] is
    [response.ok] and [data] the parsed body. *)
Definition simulate_settled (url : jsstring) (r : settled (bool * value)) : M (option task) :=
  try_catch
    (answer ← await r;
     let '(ok, data) := answer in
     (if negb ok
      then reason ← lift (get_prop data (js "error"));
           e ← lift (new_Error reason);
           throw e
      else mret tt) ;;
     downloadId ← lift (get_prop data (js "download_id"));
     pollDownloadStatus downloadId url)
    simulate_catch.

(** lines 80-81 *)
Definition start_catch (err : exn) : M (option task) :=
  logStatus (Text (js "Error: ") :: message_of err) error ;;
  mret None.

(** lines 78-85 around what is left of [simulateDownload]: the [finally]
    block runs once that call has returned or raised. *)
Definition guarded (rest : M (option task)) : M (option task) :=
  r ← try_catch rest start_catch;
  match r with
  | Some t => mret (Some t)
  | None => update (set_button false (js "Download")) ;; mret None
  end.

(** lines 62-86, up to the first suspension. *)
Definition startDownload : M (option task) :=
  st ← read;
  let url := trim (urlInput st) in
  if negb (truthy (VStr url)) then
    logStatus [Text (js "Please enter a URL")] error ;;
    mret None
  else
    valid ← validateUrl url;
    if negb valid then
      logStatus [Text (js "Invalid URL for selected platform")] error ;;
      mret None
    else
      update (set_button true (js "Downloading...")) ;;
      guarded (simulateDownload url).

(** ** Start-up *)

(** lines 15-34: from here on the page reacts to clicks and keys. *)
Definition bindEvents : M unit := update (set_bound true).

(** lines 9-13 *)
Definition init : M unit :=
  bindEvents ;;
  updateDownloadsList ;;
  logStatus [Text (js "Media Downloader initialized")] info.

(** [localStorage.getItem('downloads') || '[]']: [item] is what [getItem]
    answers, [None] for [null]. *)
Definition item_or_default (item : option jsstring) : jsstring :=
  match item with
  | Some s => if truthy (VStr s) then s else js "[]"
  | None => js "[]"
  end.

(** lines 2-7 *)
Definition constructor (item : option jsstring) : M unit :=
  update (set_currentPlatform (js "spotify")) ;;
  parsed ← lift (JSON_parse (item_or_default item));
  update (set_downloads parsed) ;;
  init.

(** ** The page at work *)

Inductive event :=
| Click                                    (* a click on #downloadBtn *)
| Keypress (key : jsstring)                (* a key pressed in #urlInput *)
| PlatformClick (platform : jsstring)      (* a click on a .platform-btn with this data-platform *)
| Typed (s : jsstring)                     (* the user edits #urlInput *)
| SubmitSettled (i : nat) (r : settled (bool * value))
| StatusSettled (i : nat) (r : settled value) (now : jsstring)
| TimerFired (i : nat).

(** A listener calls [this.startDownload()] and drops the promise. *)
Definition launch (st : app) : app :=
  match startDownload st with
  | (st', Normal (Some t)) => set_pending (pending st' ++ [t]) st'
  | (st', _) => st'
  end.

(** The browser resumes the task at index [i] with [rest]. *)
Definition resume (i : nat) (rest : M (option task)) (st : app) : app :=
  match guarded rest st with
  | (st', Normal (Some t)) => set_pending (<[i := t]> (pending st')) st'
  | (st', _) => set_pending (delete i (pending st')) st'
  end.

(** A disabled button dispatches no click; an event for a task that is not
    suspended where the event says leaves the state as it is. *)
Definition step (st : app) (ev : event) : app :=
  match ev with
  | Click => if bound st && negb (disabled st) then launch st else st
  | Keypress key => if bound st && str_eqb key (js "Enter") then launch st else st
  | PlatformClick platform => if bound st then fst (selectPlatform platform st) else st
  | Typed s => set_urlInput s st
  | SubmitSettled i r =>
      match pending st !! i with
      | Some (AwaitSubmit url) => resume i (simulate_settled url r) st
      | _ => st
      end
  | StatusSettled i r now =>
      match pending st !! i with
      | Some (AwaitStatus downloadId url) =>
          resume i (try_catch (poll_settled downloadId url r now) simulate_catch) st
      | _ => st
      end
  | TimerFired i =>
      match pending st !! i with
      | Some (AwaitDelay downloadId url) =>
          resume i (try_catch (pollDownloadStatus downloadId url) simulate_catch) st
      | _ => st
      end
  end.

Definition run (st : app) (evs : list event) : app := fold_left step evs st.

(** No call of [startDownload] is under way. *)
Definition Idle (st : app) : Prop := pending st = [].

(** A task that is inside the loop of [pollDownloadStatus]. *)
Definition polling (t : task) : bool :=
  match t with
  | AwaitSubmit _ => false
  | AwaitStatus _ _ | AwaitDelay _ _ => true
  end.

Definition poll_loops (st : app) : nat := length (List.filter polling (pending st)).

(** The document when [DOMContentLoaded] fires and line 231 builds the
    instance. The markup of the page is not among the sources: the input is
    taken empty, the button enabled, the log empty, nothing stored by the
    script yet. *)
Definition blank_page : app :=
  {| currentPlatform := []; downloads := VUndefined; bound := false;
     urlInput := []; disabled := false; caption := js "Download";
     statusLog := []; persisted := None; network := []; pending := [] |}.

(** The instance after start-up with [item] in the storage. *)
Definition started (item : option jsstring) : app := fst (constructor item blank_page).

(** ** Vocabulary of the properties *)

(** The lines the script logs. *)
Definition initialized : StatusEvent :=
  {| message := [Text (js "Media Downloader initialized")]; type := info |}.
Definition please : StatusEvent :=
  {| message := [Text (js "Please enter a URL")]; type := error |}.
Definition completed1 : StatusEvent :=
  {| message := [Text (js "[SUCCESS] Download completed!")]; type := success |}.
Definition completed2 : StatusEvent :=
  {| message := [Text (js "Files ready for download")]; type := success |}.
Definition failed (e : exn) : StatusEvent :=
  {| message := Text (js "Status check failed: ") :: message_of e; type := error |}.
Definition invalid : StatusEvent :=
  {| message := [Text (js "Invalid URL for selected platform")]; type := error |}.

Definition reported (reason : value) : StatusEvent :=
  {| message := [Text (js "Error: "); shown reason]; type := error |}.

Definition progress (platform : jsstring) (state : value) : StatusEvent :=
  {| message := [Text (js "["); Upper platform; Text (js "] "); shown state]; type := info |}.

(** [status.status], [undefined] where the read raises. *)
Definition state_of (status : value) : value :=
  match get_prop status (js "status") with
  | Normal state => state
  | Throw _ => VUndefined
  end.

(** A status whose [status] is ['completed']. *)
Definition completed (status : value) : bool :=
  match get_prop status (js "status") with
  | Normal state => is_str state (js "completed")
  | Throw _ => false
  end.

(** A status that keeps the loop going: its [status] can be read and printed
    and is neither ['completed'] nor ['error']. *)
Definition waiting (status : value) : bool :=
  match get_prop status (js "status") with
  | Normal state =>
      negb (is_str state (js "completed")) && negb (is_str state (js "error"))
      && negb (unprintable state)
  | Throw _ => false
  end.

(** The events of a task at index [i] that polls through [answers], each
    with the time at which it arrives. *)
Definition ticks (i : nat) (answers : list (value * jsstring)) : list event :=
  flat_map (fun a => [StatusSettled i (Fulfilled (fst a)) (snd a); TimerFired i]) answers.

(** An event by which the user submits: it makes a listener call
    [startDownload]. *)
Definition submits (st : app) (ev : event) : bool :=
  match ev with
  | Click => bound st && negb (disabled st)
  | Keypress key => bound st && str_eqb key (js "Enter")
  | _ => false
  end.

(** A string in which every surrogate has its partner. *)
Fixpoint well_formed (s : jsstring) : bool :=
  match s with
  | [] => true
  | c :: s' =>
      if is_trail c then false
      else if is_lead c then
        match s' with
        | d :: s'' => is_trail d && well_formed s''
        | [] => false
        end
      else well_formed s'
  end.

(** [addDownload] called on each record in turn; what rendering raises is
    dropped, as the caller of line 139 does once it has logged it. *)
Definition commit_all (records : list value) (st : app) : app :=
  fold_left (fun s r => fst (addDownload r s)) records st.

(** The run of section 8, item 6 of the specification. *)
Definition job (id : value) : value := VObj [(js "download_id", id)].

Definition processing : value := VObj [(js "status", VStr (js "processing"))].

Definition song : value :=
  VObj [ (js "status", VStr (js "completed"));
         (js "title", VStr (js "Song"));
         (js "files", VArr [VStr (js "song.mp3")]) ].

Definition song_run (id : value) (t1 t2 t3 : jsstring) : list event :=
  [ Click;
    SubmitSettled 0 (Fulfilled (true, job id));
    StatusSettled 0 (Fulfilled processing) t1; TimerFired 0;
    StatusSettled 0 (Fulfilled processing) t2; TimerFired 0;
    StatusSettled 0 (Fulfilled song) t3 ].

Definition song_record (url now : jsstring) : value :=
  VObj [ (js "title", VStr (js "Song"));
         (js "platform", VStr (js "spotify"));
         (js "url", VStr url);
         (js "outputPath", VUndefined);
         (js "files", VArr [VStr (js "song.mp3")]);
         (js "timestamp", VStr now) ].

Definition spotify_url : jsstring := js "https://open.spotify.com/track/abc".

(** How many events of a log carry a given class. *)
Definition count_type (ty : severity) (l : list StatusEvent) : nat :=
  length (List.filter (fun ev => match type ev, ty with
                                  | info, info | success, success | error, error => true
                                  | _, _ => false
                                  end) l).

(** The lines logged from one state to a later one. *)
Definition emitted (before after : app) : list StatusEvent :=
  drop (length (statusLog before)) (statusLog after).

(** The units [encodeURIComponent] can put out: the unreserved ones and the
    percent sign. *)
Definition uri_safe (c : N) : bool := unreserved c || (c =? 37).

(** The separators of the path, the query and the fragment of a URL, and of
    the parameters of a query. *)
Definition delimiters : jsstring := js "/?#&".

(** The link of a file up to the file name. *)
Definition link_base (platform : jsstring) : jsstring :=
  apiUrl ++ js "/download-file/" ++ platform ++ js "/".

(** A relation between the state a method finds and the state it leaves,
    kept by the method whatever it answers or raises. *)
Definition keeps (R : app -> app -> Prop) {A} (m : M A) : Prop :=
  forall st, R st (fst (m st)).

(** A list that only grew at its end. *)
Definition extends {A} (l l' : list A) : Prop := exists more, l' = l ++ more.


(** The history is a sequence of at most 10 records. *)
Definition bounded (st : app) : Prop :=
  exists l, downloads st = VArr l /\ (length l <= 10)%nat.

(** The history was left alone or got records pushed at its head, the
    overflow past 10 dropped at the tail. *)
Definition pushed (st st' : app) : Prop :=
  downloads st' = downloads st
  \/ exists l newer,
       downloads st = VArr l /\ newer <> [] /\ downloads st' = VArr (take 10 (newer ++ l)).

(** The suspended calls are the same. *)
Definition same_pending (st st' : app) : Prop := pending st' = pending st.

(** The button is disabled only while a call of [startDownload] is under way. *)
Definition button_in_step (st : app) : Prop :=
  disabled st = true -> pending st <> [].

(** The line of the catch of lines 116-118. *)
Definition refused (e : exn) : StatusEvent :=
  {| message := Text (js "Error: ") :: message_of e; type := error |}.

(** What reaches the catch of lines 116-118 when the submission is not
    answered, or is answered with a status that is not ok: the rejection, or
    what lines 109-111 raise. *)
Definition submit_error (r : settled (bool * value)) : exn :=
  match r with
  | Rejected e => e
  | Fulfilled (_, data) =>
      match get_prop data (js "error") with
      | Throw e => e
      | Normal reason =>
          match new_Error reason with
          | Normal e => e
          | Throw e => e
          end
      end
  end.

(** A submission that failed: no answer, or an answer that is not ok. *)
Definition submit_failed (r : settled (bool * value)) : bool :=
  match r with
  | Rejected _ => true
  | Fulfilled (ok, _) => negb ok
  end.

(** The strings a pattern matches: finitely many, as no pattern of the
    table repeats. *)
Fixpoint fragments (r : regex) : list jsstring :=
  match r with
  | Lit p => [p]
  | Seq r1 r2 => flat_map (fun w1 => List.map (fun w2 => w1 ++ w2) (fragments r2)) (fragments r1)
  | Alt r1 r2 => fragments r1 ++ fragments r2
  end.

(** [url] holds [w] somewhere. *)
Definition contains (url w : jsstring) : Prop := exists a b, url = a ++ w ++ b.

(** Reading a file name back from its encoding: the escapes, then UTF-8,
    then UTF-16. It undoes [encodeURIComponent] on what that function puts
    out, and serves to show that no two names share an encoding. *)

(** The code units of a code point. *)
Definition to_utf16 (cp : N) : jsstring :=
  if cp <? 65536 then [cp]
  else [55296 + (cp - 65536) / 1024; 56320 + (cp - 65536) mod 1024].

(** The code points of a sequence of UTF-8 octets. *)
Fixpoint decode_utf8 (octets : list N) : option (list N) :=
  match octets with
  | [] => Some []
  | b0 :: r0 =>
      if b0 <? 128 then cons b0 <$> decode_utf8 r0
      else if b0 <? 224 then
        match r0 with
        | b1 :: r1 => cons ((b0 - 192) * 64 + (b1 - 128)) <$> decode_utf8 r1
        | _ => None
        end
      else if b0 <? 240 then
        match r0 with
        | b1 :: b2 :: r2 =>
            cons ((b0 - 224) * 4096 + (b1 - 128) * 64 + (b2 - 128)) <$> decode_utf8 r2
        | _ => None
        end
      else
        match r0 with
        | b1 :: b2 :: b3 :: r3 =>
            cons ((b0 - 240) * 262144 + (b1 - 128) * 4096 + (b2 - 128) * 64 + (b3 - 128))
              <$> decode_utf8 r3
        | _ => None
        end
  end.

(** The octets of a percent-encoded string. *)
Fixpoint unescape (s : jsstring) : option (list N) :=
  match s with
  | [] => Some []
  | c :: rest =>
      if c =? 37 then
        match rest with
        | a :: b :: rest' =>
            h ← hex_value a; l ← hex_value b; o ← unescape rest'; Some (16 * h + l :: o)
        | _ => None
        end
      else cons c <$> unescape rest
  end.

Definition read_back (s : jsstring) : option jsstring :=
  octets ← unescape s; points ← decode_utf8 octets; Some (flat_map to_utf16 points).

(** A string of the model that is a string of JavaScript: each unit is
    below 65536. *)
Definition is_string (s : jsstring) : Prop := Forall (fun c => c < 65536) s.

(** What [formatTime] answers (lines 204-213), as a function of the two
    time values it compares: [now], the clock, and [date], the time value of
    [new Date(timestamp)], [None] when the timestamp is no date (NaN). Time
    values are whole numbers of milliseconds, so [Math.floor] of the
    quotient is the quotient of the integers; every comparison with NaN is
    false. *)
Inductive age :=
| JustNow                      (* 'Just now' *)
| MinutesAgo (n : Z)           (* `${n}m ago` *)
| HoursAgo (n : Z)             (* `${n}h ago` *)
| OnDate (date : option Z).    (* date.toLocaleDateString() *)

Definition formatTime_answer (now : Z) (date : option Z) : age :=
  match date with
  | None => OnDate None
  | Some t =>
      let diff := (now - t)%Z in
      if (diff <? 60000)%Z then JustNow
      else if (diff <? 3600000)%Z then MinutesAgo (diff / 60000)
      else if (diff <? 86400000)%Z then HoursAgo (diff / 3600000)
      else OnDate date
  end.

(** The table of lines 52-58. *)
Definition placeholders : list (jsstring * jsstring) :=
  [ (js "spotify", js "https://open.spotify.com/track/...");
    (js "youtube-audio", js "https://www.youtube.com/watch?v=...");
    (js "youtube-video", js "https://www.youtube.com/watch?v=...");
    (js "tiktok", js "https://www.tiktok.com/@user/video/...");
    (js "twitter", js "https://twitter.com/user/status/...") ].

(** [placeholders[platform]] (line 59) for a key of the table; [None]
    where the table has no such key. *)
Fixpoint placeholder_of (platform : jsstring) (table : list (jsstring * jsstring))
  : option jsstring :=
  match table with
  | [] => None
  | (k, hint) :: rest => if str_eqb platform k then Some hint else placeholder_of platform rest
  end.

(** A file name as the server is to send it: a string in which every
    surrogate has its partner. *)
Definition file_name (v : value) : bool :=
  match v with VStr s => well_formed s | _ => false end.

(** A status that follows the interface of the server: its title is absent
    or a string, its files are absent or a sequence of file names. *)
Definition conforming (status : value) : bool :=
  match get_prop status (js "title"), get_prop status (js "files") with
  | Normal title, Normal files =>
      match title with VUndefined | VStr _ => true | _ => false end
      && match files with
         | VUndefined => true
         | VArr fl => forallb file_name fl
         | _ => false
         end
  | _, _ => false
  end.

(** The record of lines 131-138 by its fields. *)
Definition built (title output_path files : value) (platform url now : jsstring) : value :=
  VObj [ (js "title", title); (js "platform", VStr platform); (js "url", VStr url);
         (js "outputPath", output_path); (js "files", files); (js "timestamp", VStr now) ].

(** The stored text [[{"files":1e-400}]]. *)
Definition tiny_files : jsstring :=
  js "[{" ++ [34] ++ js "files" ++ [34] ++ js ":1e-400}]".


(** The dot segments of a URL path: '.', '..', and the same with '%2e' or
    '%2E' for a dot. Resolving a URL drops the first kind and, at the second,
    the segment before it as well. *)
Definition dot_segments : list jsstring :=
  List.map js [ "."; "%2e"; "%2E";
                ".."; ".%2e"; ".%2E"; "%2e."; "%2E."; "%2e%2e"; "%2e%2E"; "%2E%2e"; "%2E%2E" ]%string.

Definition dot_segment (s : jsstring) : bool := existsb (str_eqb s) dot_segments.

(** ** Lemmas on the pieces of the model *)

Ltac monad :=
  cbv [mbind mret M_mbind M_mret read update lift throw await fetch try_catch
       completion_mbind completion_mret completion_bind negb].

(** Projections of a state built by the setters. *)
Ltac fields :=
  cbv [set_currentPlatform set_downloads set_bound set_urlInput set_button set_statusLog
       set_persisted set_network set_pending
       currentPlatform downloads bound urlInput disabled caption statusLog persisted
       network pending].

Lemma trim_start_white (s : jsstring) : forallb is_white s = true -> trim_start s = [].
Proof.
  induction s as [|c s IH]; simpl; [done|].
  intros [Hc Hs]%andb_prop. rewrite Hc. auto.
Qed.

Lemma trim_white (s : jsstring) : forallb is_white s = true -> trim s = [].
Proof. intros H. unfold trim. rewrite (trim_start_white s H). reflexivity. Qed.

Lemma startDownload_blank (st : app) :
  trim (urlInput st) = [] ->
  startDownload st = (set_statusLog (statusLog st ++ [please]) st, Normal None).
Proof.
  intros H. unfold startDownload. monad. rewrite H. reflexivity.
Qed.

Lemma step_submits (st : app) (ev : event) :
  submits st ev = true -> step st ev = launch st.
Proof. destruct ev; simpl; try discriminate; intros ->; reflexivity. Qed.

Lemma launch_blank (st : app) :
  trim (urlInput st) = [] ->
  launch st = set_statusLog (statusLog st ++ [please]) st.
Proof. intros H. unfold launch. rewrite (startDownload_blank st H). reflexivity. Qed.

Lemma kept_take (data : value) (l : list value) :
  (if (10 <? length (data :: l))%nat then take 10 (data :: l) else data :: l)
  = take 10 (data :: l).
Proof.
  destruct (Nat.ltb_spec 10 (length (data :: l))); [done|].
  symmetry. apply take_ge. lia.
Qed.

Lemma addDownload_stores (data : value) (st : app) (l : list value) :
  downloads st = VArr l ->
  downloads (fst (addDownload data st)) = VArr (take 10 (data :: l)) /\
  persisted (fst (addDownload data st)) = Some (VArr (take 10 (data :: l))).
Proof.
  intros H. unfold addDownload. monad. rewrite H, kept_take.
  destruct st; split; reflexivity.
Qed.

Lemma show_printable (v : value) : unprintable v = false -> show v = Normal (shown v).
Proof. intros H. unfold show. rewrite H. reflexivity. Qed.

Lemma run_nil (st : app) : run st [] = st.
Proof. reflexivity. Qed.

Lemma run_cons (st : app) (ev : event) (evs : list event) :
  run st (ev :: evs) = run (step st ev) evs.
Proof. reflexivity. Qed.

Lemma run_app (st : app) (evs1 evs2 : list event) :
  run st (evs1 ++ evs2) = run (run st evs1) evs2.
Proof. apply fold_left_app. Qed.

(** *** One event at a time *)

Lemma launch_accepts (st : app) (url : jsstring) :
  trim (urlInput st) = url -> truthy (VStr url) = true ->
  validateUrl url st = (st, Normal true) ->
  launch st =
  set_pending (pending st ++ [AwaitSubmit url])
    (set_network (network st ++ [PostDownload url (currentPlatform st)])
       (set_button true (js "Downloading...") st)).
Proof.
  intros Hu Ht Hv. unfold launch, startDownload. monad.
  rewrite Hu, Ht. monad. rewrite Hv. destruct st; reflexivity.
Qed.

Lemma step_submitted (st : app) (i : nat) (url : jsstring) (data id : value) :
  pending st !! i = Some (AwaitSubmit url) ->
  get_prop data (js "download_id") = Normal id ->
  unprintable id = false ->
  step st (SubmitSettled i (Fulfilled (true, data))) =
  set_pending (<[i := AwaitStatus id url]> (pending st))
    (set_network (network st ++ [GetStatus (shown id)]) st).
Proof.
  intros Hp Hd Hi. unfold step. rewrite Hp.
  unfold resume, guarded, simulate_settled, pollDownloadStatus. monad.
  rewrite Hd. rewrite (show_printable _ Hi). destruct st; reflexivity.
Qed.

Lemma step_waiting (st : app) (i : nat) (id : value) (url : jsstring)
    (status : value) (now : jsstring) :
  pending st !! i = Some (AwaitStatus id url) ->
  waiting status = true ->
  step st (StatusSettled i (Fulfilled status) now) =
  set_pending (<[i := AwaitDelay id url]> (pending st))
    (set_statusLog (statusLog st ++ [progress (currentPlatform st) (state_of status)]) st).
Proof.
  intros Hp Hw. unfold step. rewrite Hp.
  unfold waiting in Hw. unfold state_of.
  destruct (get_prop status (js "status")) as [state|] eqn:Hs; [|discriminate].
  apply andb_prop in Hw as [[Hc He]%andb_prop Hu].
  apply negb_true_iff in Hc, He, Hu.
  unfold resume, guarded, poll_settled. monad.
  rewrite Hs, Hc, He. rewrite (show_printable _ Hu). destruct st; reflexivity.
Qed.

Lemma step_timer (st : app) (i : nat) (id : value) (url : jsstring) :
  pending st !! i = Some (AwaitDelay id url) ->
  unprintable id = false ->
  step st (TimerFired i) =
  set_pending (<[i := AwaitStatus id url]> (pending st))
    (set_network (network st ++ [GetStatus (shown id)]) st).
Proof.
  intros Hp Hi. unfold step. rewrite Hp.
  unfold resume, guarded, pollDownloadStatus. monad.
  rewrite (show_printable _ Hi). destruct st; reflexivity.
Qed.

Lemma step_rejected (st : app) (i : nat) (id : value) (url : jsstring)
    (e : exn) (now : jsstring) :
  pending st !! i = Some (AwaitStatus id url) ->
  step st (StatusSettled i (Rejected e) now) =
  set_pending (delete i (pending st))
    (set_button false (js "Download") (set_statusLog (statusLog st ++ [failed e]) st)).
Proof.
  intros H. unfold step. rewrite H. destruct st; reflexivity.
Qed.

Lemma step_completed (st : app) (i : nat) (id : value) (url : jsstring)
    (status : value) (now : jsstring) (l : list value) (record : value) :
  pending st !! i = Some (AwaitStatus id url) ->
  completed status = true ->
  downloads st = VArr l ->
  downloadData (currentPlatform st) url status now = Normal record ->
  render_downloads (VArr (take 10 (record :: l))) = Normal tt ->
  step st (StatusSettled i (Fulfilled status) now) =
  set_pending (delete i (pending st))
    (set_button false (js "Download")
      (set_urlInput []
        (set_persisted (Some (VArr (take 10 (record :: l))))
          (set_downloads (VArr (take 10 (record :: l)))
            (set_statusLog (statusLog st ++ [completed1; completed2]) st))))).
Proof.
  intros Hp Hc Hd Hr Hok. unfold step. rewrite Hp.
  unfold completed in Hc.
  destruct (get_prop status (js "status")) as [state|] eqn:Hs; [|discriminate].
  unfold resume, guarded, poll_settled. monad.
  rewrite Hs, Hc. unfold logStatus, addDownload, updateDownloadsList. monad.
  destruct st as [cp dl bd ui ds ca sl ps nw pd]; simpl in *. rewrite Hr. subst dl.
  pose proof (kept_take record l) as E. simpl in E. simpl. rewrite E.
  simpl in Hok. rewrite Hok. rewrite <- app_assoc. reflexivity.
Qed.

(** ** The claims *)

(** C7. A submission whose URL, the trimmed input, is empty logs exactly
    one line, the error "Please enter a URL", and changes nothing else: no
    request is made, no task is started, so an idle page stays idle. *)
Theorem C7_empty_url_is_rejected (st : app) (ev : event) :
  submits st ev = true ->
  trim (urlInput st) = [] ->
  step st ev = set_statusLog (statusLog st ++ [please]) st
  /\ statusLog (step st ev) = statusLog st ++ [please]
  /\ type please = error
  /\ network (step st ev) = network st
  /\ pending (step st ev) = pending st
  /\ (Idle st -> Idle (step st ev)).
Proof.
  intros Hs Hu. rewrite (step_submits st ev Hs).
  rewrite (launch_blank st Hu).
  destruct st; repeat split; auto.
Qed.

Lemma C7_witness :
  submits (started None) Click = true
  /\ trim (urlInput (started None)) = []
  /\ network (step (started None) Click) = []
  /\ statusLog (step (started None) Click) = [initialized; please].
Proof.
  split; [reflexivity|]. split; [reflexivity|].
  pose proof (C7_empty_url_is_rejected (started None) Click eq_refl eq_refl) as H.
  destruct H as (_ & Hl & _ & Hn & _). split; [exact Hn | exact Hl].
Defined.

(** C10. A submission while the input holds nothing but white space is
    rejected as an empty one is: the input is trimmed first, so the one line
    logged is "Please enter a URL" whatever the platform, no request is made
    and no task is started; the state is the one the empty input leads to,
    with the input left as typed. *)
Theorem C10_blank_url_is_rejected_as_empty (st : app) (ev : event) :
  submits st ev = true ->
  forallb is_white (urlInput st) = true ->
  trim (urlInput st) = []
  /\ step st ev = set_statusLog (statusLog st ++ [please]) st
  /\ step st ev = set_urlInput (urlInput st) (step (set_urlInput [] st) ev)
  /\ network (step st ev) = network st
  /\ pending (step st ev) = pending st.
Proof.
  intros Hs Hw. split; [exact (trim_white _ Hw)|].
  assert (Hs' : submits (set_urlInput [] st) ev = true) by (destruct ev; exact Hs).
  rewrite (step_submits st ev Hs), (step_submits _ ev Hs').
  rewrite (launch_blank st (trim_white _ Hw)), (launch_blank (set_urlInput [] st) eq_refl).
  destruct st; repeat split; auto.
Qed.

Lemma C10_witness :
  submits (step (started None) (Typed (js "   "))) (Keypress (js "Enter")) = true
  /\ forallb is_white (urlInput (step (started None) (Typed (js "   ")))) = true
  /\ statusLog (run (started None) [Typed (js "   "); Keypress (js "Enter")])
     = [initialized; please]
  /\ network (run (started None) [Typed (js "   "); Keypress (js "Enter")]) = [].
Proof.
  split; [reflexivity|]. split; [reflexivity|].
  pose proof (C10_blank_url_is_rejected_as_empty
                (step (started None) (Typed (js "   "))) (Keypress (js "Enter"))
                eq_refl eq_refl) as H.
  destruct H as (_ & He & _ & Hn & _). split.
  - change (run (started None) [Typed (js "   "); Keypress (js "Enter")])
      with (step (step (started None) (Typed (js "   "))) (Keypress (js "Enter"))).
    rewrite He. reflexivity.
  - exact Hn.
Defined.

(** C8. Whatever the URL, [validateUrl] answers the same under the platform
    youtube-audio and under the platform youtube-video: it accepts the URL
    under the one exactly when it accepts it under the other. *)
Theorem C8_youtube_audio_and_video_accept_the_same_urls (st : app) (url : jsstring) :
  let audio := set_currentPlatform (js "youtube-audio") st in
  let video := set_currentPlatform (js "youtube-video") st in
  (exists accepted : bool,
      validateUrl url audio = (audio, Normal accepted)
      /\ validateUrl url video = (video, Normal accepted))
  /\ (snd (validateUrl url audio) = Normal true <-> snd (validateUrl url video) = Normal true).
Proof.
  split.
  - eexists. split; reflexivity.
  - split; intros H; exact H.
Qed.

Lemma C8_witness :
  validateUrl (js "https://youtu.be/dQw4w9WgXcQ") (set_currentPlatform (js "youtube-audio") (started None))
  = (set_currentPlatform (js "youtube-audio") (started None), Normal true)
  /\ validateUrl (js "https://youtu.be/dQw4w9WgXcQ") (set_currentPlatform (js "youtube-video") (started None))
     = (set_currentPlatform (js "youtube-video") (started None), Normal true).
Proof.
  destruct (proj1 (C8_youtube_audio_and_video_accept_the_same_urls (started None)
                     (js "https://youtu.be/dQw4w9WgXcQ"))) as (accepted & Ha & Hv).
  assert (accepted = true) as ->.
  { pose proof (f_equal snd Ha) as H. vm_compute in H. congruence. }
  split; assumption.
Defined.

Lemma take_app_take {A} (n : nat) (a b : list A) :
  take n (a ++ take n b) = take n (a ++ b).
Proof.
  rewrite !take_app, take_take. f_equal. f_equal. lia.
Qed.

Lemma commit_all_truncated (records : list value) (st : app) (m : list value) :
  downloads st = VArr (take 10 m) ->
  persisted st = Some (VArr (take 10 m)) ->
  downloads (commit_all records st) = VArr (take 10 (rev records ++ m)) /\
  persisted (commit_all records st) = Some (VArr (take 10 (rev records ++ m))).
Proof.
  revert st m. induction records as [|r rs IH]; intros st m Hd Hp.
  - simpl. auto.
  - destruct (addDownload_stores r st _ Hd) as [Hd1 Hp1].
    change (r :: take 10 m) with ([r] ++ take 10 m) in Hd1, Hp1.
    rewrite take_app_take in Hd1, Hp1.
    destruct (IH (fst (addDownload r st)) ([r] ++ m) Hd1 Hp1) as [Hd2 Hp2].
    simpl rev. rewrite <- !app_assoc. split; assumption.
Qed.

Lemma commit_all_stores (r : value) (records : list value) (st : app) (l : list value) :
  downloads st = VArr l ->
  downloads (commit_all (r :: records) st) = VArr (take 10 (rev (r :: records) ++ l)) /\
  persisted (commit_all (r :: records) st) = Some (VArr (take 10 (rev (r :: records) ++ l))).
Proof.
  intros H. destruct (addDownload_stores r st l H) as [Hd Hp].
  destruct (commit_all_truncated records (fst (addDownload r st)) (r :: l) Hd Hp) as [Hd1 Hp1].
  simpl rev. rewrite <- !app_assoc. split; assumption.
Qed.

(** C4. Whatever the history and the record, [addDownload] leaves the new
    record at the head of a history of at most 10 records, which is the
    history before it with the record in front and the overflow cut off at
    the tail, and stores that same sequence. Committing several records
    leaves the newest first. In particular, after 11 commits to an empty
    history the last committed record is at the head, followed by the nine
    before it and by the second: the first one is gone. *)
Theorem C4_history_is_bounded_newest_first :
  (forall (st : app) (l : list value) (data : value),
      downloads st = VArr l ->
      exists kept dropped,
        downloads (fst (addDownload data st)) = VArr kept
        /\ persisted (fst (addDownload data st)) = Some (VArr kept)
        /\ (length kept <= 10)%nat
        /\ kept !! 0%nat = Some data
        /\ data :: l = kept ++ dropped)
  /\ (forall (st : app) (l : list value) (r : value) (records : list value),
      downloads st = VArr l ->
      downloads (commit_all (r :: records) st) = VArr (take 10 (rev (r :: records) ++ l)))
  /\ (forall (st : app) (r1 r2 r3 r4 r5 r6 r7 r8 r9 r10 r11 : value),
      downloads st = VArr [] ->
      let st' := commit_all [r1; r2; r3; r4; r5; r6; r7; r8; r9; r10; r11] st in
      downloads st' = VArr [r11; r10; r9; r8; r7; r6; r5; r4; r3; r2]
      /\ persisted st' = Some (VArr [r11; r10; r9; r8; r7; r6; r5; r4; r3; r2])
      /\ (~ In r1 [r2; r3; r4; r5; r6; r7; r8; r9; r10; r11] ->
          forall kept, downloads st' = VArr kept -> ~ In r1 kept)).
Proof.
  split; [|split].
  - intros st l data H. destruct (addDownload_stores data st l H) as [Hd Hp].
    exists (take 10 (data :: l)), (drop 10 (data :: l)).
    split; [exact Hd|]. split; [exact Hp|]. split; [|split].
    + rewrite length_take. lia.
    + reflexivity.
    + symmetry. apply take_drop.
  - intros st l r records H. exact (proj1 (commit_all_stores r records st l H)).
  - intros st r1 r2 r3 r4 r5 r6 r7 r8 r9 r10 r11 H st'.
    destruct (commit_all_stores r1 [r2; r3; r4; r5; r6; r7; r8; r9; r10; r11] st [] H)
      as [Hd Hp].
    subst st'. split; [exact Hd|]. split; [exact Hp|].
    intros Hn kept Hk. rewrite Hd in Hk. injection Hk as <-.
    intros Hin. apply Hn. simpl in Hin |- *. tauto.
Qed.

Lemma C4_witness :
  downloads (started None) = VArr []
  /\ (exists kept dropped,
        downloads (fst (addDownload (song_record spotify_url []) (started None))) = VArr kept
        /\ persisted (fst (addDownload (song_record spotify_url []) (started None)))
           = Some (VArr kept)
        /\ (length kept <= 10)%nat
        /\ kept !! 0%nat = Some (song_record spotify_url [])
        /\ [song_record spotify_url []] = kept ++ dropped)
  /\ downloads (commit_all [VNum (of_length 1); VNum (of_length 2); VNum (of_length 3);
                            VNum (of_length 4); VNum (of_length 5); VNum (of_length 6);
                            VNum (of_length 7); VNum (of_length 8); VNum (of_length 9);
                            VNum (of_length 10); VNum (of_length 11)] (started None))
     = VArr [VNum (of_length 11); VNum (of_length 10); VNum (of_length 9);
             VNum (of_length 8); VNum (of_length 7); VNum (of_length 6);
             VNum (of_length 5); VNum (of_length 4); VNum (of_length 3);
             VNum (of_length 2)].
Proof.
  split; [reflexivity|]. split.
  - exact (proj1 C4_history_is_bounded_newest_first (started None) []
             (song_record spotify_url []) eq_refl).
  - exact (proj1 (proj2 (proj2 C4_history_is_bounded_newest_first) (started None)
             (VNum (of_length 1)) (VNum (of_length 2)) (VNum (of_length 3))
             (VNum (of_length 4)) (VNum (of_length 5)) (VNum (of_length 6))
             (VNum (of_length 7)) (VNum (of_length 8)) (VNum (of_length 9))
             (VNum (of_length 10)) (VNum (of_length 11)) eq_refl)).
Defined.

Lemma completed_object (status : value) :
  completed status = true -> exists props, status = VObj props.
Proof.
  destruct status; try (vm_compute; discriminate). eauto.
Qed.



(** What [this.downloads] is after the answer ['completed'], whether or not
    rendering the list raises afterwards. *)
Lemma step_completed_downloads (st : app) (i : nat) (id : value) (url : jsstring)
    (status : value) (now : jsstring) (l : list value) (record : value) :
  pending st !! i = Some (AwaitStatus id url) ->
  completed status = true ->
  downloads st = VArr l ->
  downloadData (currentPlatform st) url status now = Normal record ->
  downloads (step st (StatusSettled i (Fulfilled status) now)) = VArr (take 10 (record :: l)).
Proof.
  intros Hp Hc Hd Hr. unfold step. rewrite Hp.
  unfold completed in Hc.
  destruct (get_prop status (js "status")) as [state|] eqn:Hs; [|discriminate].
  unfold resume, guarded, poll_settled. monad.
  rewrite Hs, Hc. unfold logStatus, addDownload, updateDownloadsList. monad.
  destruct st as [cp dl bd ui ds ca sl ps nw pd]; simpl in *. rewrite Hr. subst dl.
  pose proof (kept_take record l) as E. simpl in E. simpl. rewrite E.
  destruct (render_downloads _); reflexivity.
Qed.




Lemma JSON_parse_throws (source : jsstring) (e : exn) :
  JSON_parse source = Throw e -> e = Engine SyntaxError.
Proof.
  unfold JSON_parse.
  destruct (ts ← lex source; parse_from (EValue false, []) ts) as [[[] ?]|]; congruence.
Qed.

(** *** Numbers read by [JSON.parse] *)

Section Rounding.
Local Open Scope Z_scope.

(** The significand is a nearest whole number. *)
Lemma nearest_even_nearest (num den : Z) :
  0 < den -> Z.abs (2 * (num - nearest_even num den * den)) <= den.
Proof.
  intros Hd. unfold nearest_even.
  pose proof (Z.div_mod num den ltac:(lia)) as E.
  pose proof (Z.mod_pos_bound num den Hd) as B.
  destruct (Z.compare_spec (2 * (num mod den)) den) as [H|H|H];
    [destruct (Z.even (num / den))| |]; nia.
Qed.

(** The exponent is the whole part of the binary logarithm. *)
Lemma log2_bounds (p : Z) : 0 < p -> 2 ^ Z.log2 p <= p < 2 ^ (Z.log2 p + 1).
Proof. intros H. pose proof (Z.log2_spec p H). rewrite <- Z.add_1_r in *. lia. Qed.

Lemma log2_floor_bounds (p q : Z) :
  0 < p -> 0 < q ->
  reaches p q (log2_floor p q) = true /\ reaches p q (log2_floor p q + 1) = false.
Proof.
  intros Hp Hq.
  pose proof (log2_bounds p Hp) as [P1 P2]. pose proof (log2_bounds q Hq) as [Q1 Q2].
  pose proof (Z.log2_nonneg p) as Lp. pose proof (Z.log2_nonneg q) as Lq.
  set (lp := Z.log2 p) in *. set (lq := Z.log2 q) in *.
  assert (A : reaches p q (lp - lq + 1) = false).
  { unfold reaches. apply Z.leb_gt.
    destruct (Z_lt_le_dec (lp - lq + 1) 0) as [H|H].
    - rewrite (Z.max_l 0 (lp - lq + 1)), (Z.max_r 0 (- (lp - lq + 1))) by lia.
      rewrite Z.pow_0_r, Z.mul_1_r.
      replace lq with ((lp + 1) + (- (lp - lq + 1))) in Q1 by lia.
      rewrite Z.pow_add_r in Q1 by lia.
      pose proof (Z.pow_pos_nonneg 2 (- (lp - lq + 1)) ltac:(lia) ltac:(lia)). nia.
    - rewrite (Z.max_r 0 (lp - lq + 1)), (Z.max_l 0 (- (lp - lq + 1))) by lia.
      rewrite Z.pow_0_r, Z.mul_1_r.
      replace (lp + 1) with (lq + (lp - lq + 1)) in P2 by lia.
      rewrite Z.pow_add_r in P2 by lia.
      pose proof (Z.pow_pos_nonneg 2 (lp - lq + 1) ltac:(lia) ltac:(lia)). nia. }
  assert (B : reaches p q (lp - lq - 1) = true).
  { unfold reaches. apply Z.leb_le.
    destruct (Z_lt_le_dec (lp - lq - 1) 0) as [H|H].
    - rewrite (Z.max_l 0 (lp - lq - 1)), (Z.max_r 0 (- (lp - lq - 1))) by lia.
      rewrite Z.pow_0_r, Z.mul_1_r.
      replace (lq + 1) with (lp + (- (lp - lq - 1))) in Q2 by lia.
      rewrite Z.pow_add_r in Q2 by lia.
      pose proof (Z.pow_pos_nonneg 2 (- (lp - lq - 1)) ltac:(lia) ltac:(lia)). nia.
    - rewrite (Z.max_r 0 (lp - lq - 1)), (Z.max_l 0 (- (lp - lq - 1))) by lia.
      rewrite Z.pow_0_r, Z.mul_1_r.
      replace lp with (lq + 1 + (lp - lq - 1)) in P1 by lia.
      rewrite Z.pow_add_r in P1 by lia.
      pose proof (Z.pow_pos_nonneg 2 (lp - lq - 1) ltac:(lia) ltac:(lia)). nia. }
  unfold log2_floor. fold lp lq.
  destruct (reaches p q (lp - lq)) eqn:R.
  - split; [exact R|exact A].
  - split; [exact B|]. replace (lp - lq - 1 + 1) with (lp - lq) by lia. exact R.
Qed.

Lemma nearest_even_zero (num den : Z) :
  0 <= num -> 0 < den -> (nearest_even num den <= 0 <-> 2 * num <= den).
Proof.
  intros Hn Hd. unfold nearest_even.
  pose proof (Z.div_mod num den ltac:(lia)) as E.
  pose proof (Z.mod_pos_bound num den Hd) as B.
  pose proof (Z.div_pos num den Hn Hd) as Q.
  destruct (Z.compare_spec (2 * (num mod den)) den) as [H|H|H].
  - destruct (Z.even (num / den)) eqn:Ev; [nia|].
    split; [lia|]. intros H2. assert (num / den = 0) as Z0 by nia. rewrite Z0 in Ev. discriminate.
  - nia.
  - nia.
Qed.

Lemma is_zero_dyadic (neg : bool) (n k : Z) : is_zero (dyadic neg n k) = (n <=? 0).
Proof.
  destruct n as [|p|p]; try reflexivity. unfold dyadic.
  destruct (0 <=? k) eqn:K.
  - simpl is_zero. apply Z.leb_le in K.
    pose proof (Z.pow_pos_nonneg 2 k ltac:(lia) K).
    transitivity false; [|symmetry; apply Z.leb_gt; lia].
    apply N.eqb_neq. lia.
  - destruct (lowest p k). reflexivity.
Qed.

Lemma pow2_split (a b : Z) : 0 <= a -> 0 <= b -> 2 ^ (a + b) = 2 ^ a * 2 ^ b /\ 0 < 2 ^ a /\ 0 < 2 ^ b.
Proof.
  intros Ha Hb. rewrite Z.pow_add_r by lia.
  split; [reflexivity|]. split; apply Z.pow_pos_nonneg; lia.
Qed.

(** The one question the script asks of a number: a decimal is read as a
    zero exactly when it is 0 or at most 2^-1075 in size, half of the
    smallest binary64 above zero. *)
Lemma binary64_zero (neg : bool) (m : N) (e10 : Z) :
  is_zero (binary64 neg m e10) = true
  <-> m = 0%N \/ Z.of_N m * 10 ^ Z.max 0 e10 * 2 ^ 1075 <= 10 ^ Z.max 0 (- e10).
Proof.
  unfold binary64. destruct (N.eqb_spec m 0) as [->|Hm]; [split; [left|]; reflexivity|].
  set (p := Z.of_N m * 10 ^ Z.max 0 e10). set (q := 10 ^ Z.max 0 (- e10)).
  assert (Hp : 0 < p).
  { unfold p. pose proof (Z.pow_pos_nonneg 10 (Z.max 0 e10) ltac:(lia) ltac:(lia)). nia. }
  assert (Hq : 0 < q) by (apply Z.pow_pos_nonneg; lia).
  destruct (log2_floor_bounds p q Hp Hq) as [R _].
  set (E := log2_floor p q) in *. unfold reaches in R. apply Z.leb_le in R.
  assert (Hside : -1074 <= E - 52 -> ~ p * 2 ^ 1075 <= q).
  { intros HE Hle. destruct (Z_lt_le_dec E 0) as [H|H].
    - rewrite Z.max_l, Z.max_r, Z.pow_0_r in R by lia.
      destruct (pow2_split (- E) (1075 + E) ltac:(lia) ltac:(lia)) as (S1 & S2 & S3).
      replace (- E + (1075 + E)) with 1075 in S1 by lia.
      assert (2 <= 2 ^ (1075 + E)).
      { change 2 with (2 ^ 1) at 1. apply Z.pow_le_mono_r; lia. }
      nia.
    - rewrite Z.max_r, Z.max_l, Z.pow_0_r in R by lia.
      pose proof (Z.pow_pos_nonneg 2 E ltac:(lia) H).
      assert (2 <= 2 ^ 1075) by (change 2 with (2 ^ 1) at 1; apply Z.pow_le_mono_r; lia).
      nia. }
  destruct (Z.max_spec (E - 52) (-1074)) as [[HE ->]|[HE ->]].
  - (* the smallest exponent *)
    change (0 <=? -1074) with false. cbv [andb].
    rewrite is_zero_dyadic, Z.leb_le.
    change (Z.max 0 (- -1074)) with 1074. change (Z.max 0 (-1074)) with 0.
    rewrite Z.pow_0_r, Z.mul_1_r.
    rewrite nearest_even_zero by (try lia; pose proof (Z.pow_pos_nonneg 2 1074 ltac:(lia) ltac:(lia)); nia).
    replace (2 ^ 1075) with (2 * 2 ^ 1074) by (change 1075 with (Z.succ 1074); rewrite Z.pow_succ_r; lia).
    split; [intros H; right; lia|intros [H|H]; [lia|lia]].
  - (* every other exponent: the significand is 2^52 at least *)
    assert (Hn : ~ nearest_even (p * 2 ^ Z.max 0 (- (E - 52))) (q * 2 ^ Z.max 0 (E - 52)) <= 0).
    { rewrite nearest_even_zero.
      2:{ pose proof (Z.pow_pos_nonneg 2 (Z.max 0 (- (E - 52))) ltac:(lia) ltac:(lia)). nia. }
      2:{ pose proof (Z.pow_pos_nonneg 2 (Z.max 0 (E - 52)) ltac:(lia) ltac:(lia)). nia. }
      intros Hle. destruct (Z_lt_le_dec E 0) as [H|H].
      - rewrite Z.max_l, Z.max_r, Z.pow_0_r in R by lia.
        rewrite (Z.max_r 0 (- (E - 52))), (Z.max_l 0 (E - 52)), Z.pow_0_r in Hle by lia.
        destruct (pow2_split (- E) 52 ltac:(lia) ltac:(lia)) as (S1 & S2 & S3).
        replace (- E + 52) with (- (E - 52)) in S1 by lia. nia.
      - rewrite Z.max_r, Z.max_l, Z.pow_0_r in R by lia.
        destruct (Z_lt_le_dec (E - 52) 0) as [H'|H'].
        + rewrite (Z.max_r 0 (- (E - 52))), (Z.max_l 0 (E - 52)), Z.pow_0_r in Hle by lia.
          pose proof (Z.pow_pos_nonneg 2 E ltac:(lia) H).
          pose proof (Z.pow_pos_nonneg 2 (- (E - 52)) ltac:(lia) ltac:(lia)). nia.
        + rewrite (Z.max_l 0 (- (E - 52))), (Z.max_r 0 (E - 52)), Z.pow_0_r in Hle by lia.
          destruct (pow2_split (E - 52) 52 ltac:(lia) ltac:(lia)) as (S1 & S2 & S3).
          replace (E - 52 + 52) with E in S1 by lia.
          assert (2 <= 2 ^ 52) by (change 2 with (2 ^ 1) at 1; apply Z.pow_le_mono_r; lia).
          nia. }
    split.
    + intros H. exfalso. destruct (_ && _); [discriminate|].
      rewrite is_zero_dyadic in H. apply Z.leb_le in H. contradiction.
    + intros [H|H]; [contradiction|]. exfalso. apply Hside; [lia|exact H].
Qed.

End Rounding.

(** Roundings that are on record for binary64: a tie goes to the even
    significand, 1e23 and 0.1 are not exact, the largest number, the smallest
    normal one and the largest below it, the smallest above zero, an
    overflow, an underflow. *)
Lemma binary64_on_record :
  parse_number (js "9007199254740993") = Some (Num false 9007199254740992 0)
  /\ parse_number (js "9007199254740995") = Some (Num false 9007199254740996 0)
  /\ parse_number (js "1e23") = Some (Num false 99999999999999991611392 0)
  /\ parse_number (js "0.1") = Some (Num false 3602879701896397 (-55))
  /\ parse_number (js "1.7976931348623157e308")
     = Some (Num false (Z.to_N ((2 ^ 53 - 1) * 2 ^ 971)) 0)
  /\ parse_number (js "1.7976931348623158e308")
     = Some (Num false (Z.to_N ((2 ^ 53 - 1) * 2 ^ 971)) 0)
  /\ parse_number (js "1.7976931348623159e308") = Some (Inf false)
  /\ parse_number (js "-1e400") = Some (Inf true)
  /\ parse_number (js "2.2250738585072014e-308") = Some (Num false 1 (-1022))
  /\ parse_number (js "2.2250738585072011e-308") = Some (Num false 4503599627370495 (-1074))
  /\ parse_number (js "5e-324") = Some (Num false 1 (-1074))
  /\ parse_number (js "2.5e-324") = Some (Num false 1 (-1074))
  /\ parse_number (js "2.4e-324") = Some (Num false 0 0)
  /\ parse_number (js "1e-400") = Some (Num false 0 0)
  /\ parse_number (js "-0") = Some (Num true 0 0).
Proof. repeat apply conj; vm_compute; reflexivity. Qed.

(** A stored number that underflows is a zero like any other: the history
    [[{files: 1e-400}]] is rendered and start-up completes. *)
Lemma underflow_is_falsy :
  JSON_parse tiny_files = Normal (VArr [VObj [(js "files", VNum (Num false 0 0))]])
  /\ render_downloads (VArr [VObj [(js "files", VNum (Num false 0 0))]]) = Normal tt
  /\ statusLog (started (Some tiny_files)) = [initialized].
Proof. repeat apply conj; vm_compute; reflexivity. Qed.

Lemma item_present (s : jsstring) : s <> [] -> item_or_default (Some s) = s.
Proof. destruct s; [congruence|reflexivity]. Qed.

(** C1, as the script has it. When nothing, or the empty string, is stored,
    the history is the empty sequence and start-up completes: the listeners
    are installed and the line "Media Downloader initialized" is logged.
    When a stored text parses, the history is the parsed value. When a
    stored text does not parse, [JSON.parse] raises a SyntaxError that
    nothing catches: the constructor ends there, before [init], with no
    history assigned, no listener installed and nothing logged. *)
Theorem C1_load_of_the_history (page : app) (item : option jsstring) :
  (item = None \/ item = Some [] ->
     constructor item page =
     (set_statusLog (statusLog page ++ [initialized])
        (set_bound true (set_downloads (VArr []) (set_currentPlatform (js "spotify") page))),
      Normal tt))
  /\ (forall s v, item = Some s -> s <> [] -> JSON_parse s = Normal v ->
        downloads (fst (constructor item page)) = v)
  /\ (forall s e, item = Some s -> s <> [] -> JSON_parse s = Throw e ->
        e = Engine SyntaxError
        /\ constructor item page = (set_currentPlatform (js "spotify") page, Throw e)).
Proof.
  split; [|split].
  - intros [-> | ->]; destruct page; reflexivity.
  - intros s v -> Hs Hv. unfold constructor. monad.
    rewrite (item_present s Hs), Hv. unfold init, bindEvents, updateDownloadsList, logStatus.
    monad. destruct page; simpl. destruct (render_downloads v); reflexivity.
  - intros s e -> Hs He. split; [exact (JSON_parse_throws s e He)|].
    unfold constructor. monad. rewrite (item_present s Hs), He. reflexivity.
Qed.

Lemma C1_witness :
  constructor None blank_page
  = (set_statusLog [initialized]
       (set_bound true (set_downloads (VArr []) (set_currentPlatform (js "spotify") blank_page))),
     Normal tt)
  /\ (js "{oops" <> [] /\ JSON_parse (js "{oops") = Throw (Engine SyntaxError)
      /\ constructor (Some (js "{oops")) blank_page
         = (set_currentPlatform (js "spotify") blank_page, Throw (Engine SyntaxError))).
Proof.
  split.
  - exact (proj1 (C1_load_of_the_history blank_page None) (or_introl eq_refl)).
  - split; [discriminate|]. split; [reflexivity|].
    exact (proj2 (proj2 (proj2 (C1_load_of_the_history blank_page (Some (js "{oops"))))
                   (js "{oops") (Engine SyntaxError) eq_refl
                   ltac:(discriminate) eq_refl)).
Defined.

(** C1 as the claim states it fails: with the text [{oops] in the storage
    the load raises, the history is not the empty sequence, and start-up
    does not complete (no listener installed, nothing logged). *)
Lemma C1_counterexample :
  JSON_parse (js "{oops") = Throw (Engine SyntaxError)
  /\ snd (constructor (Some (js "{oops")) blank_page) = Throw (Engine SyntaxError)
  /\ downloads (started (Some (js "{oops"))) <> VArr []
  /\ bound (started (Some (js "{oops"))) = false
  /\ statusLog (started (Some (js "{oops"))) = [].
Proof. repeat split; try reflexivity. discriminate. Qed.

(** C2, where the script departs from the claim. Once a submission is under
    way the button is disabled and a click is lost, but the Enter key in the
    input still calls [startDownload]: a second submission is made and, once
    both are answered, two loops of [pollDownloadStatus] run side by side. *)
Theorem C2_enter_key_starts_a_second_poll_loop :
  let st1 := run (started None) [Typed spotify_url; Click] in
  let answered1 := SubmitSettled 0 (Fulfilled (true, job (VStr (js "1")))) in
  let answered2 := SubmitSettled 1 (Fulfilled (true, job (VStr (js "2")))) in
  pending st1 = [AwaitSubmit spotify_url]
  /\ disabled st1 = true
  /\ step st1 Click = st1
  /\ submits st1 (Keypress (js "Enter")) = true
  /\ pending (step st1 (Keypress (js "Enter"))) = [AwaitSubmit spotify_url; AwaitSubmit spotify_url]
  /\ network (step st1 (Keypress (js "Enter")))
     = [PostDownload spotify_url (js "spotify"); PostDownload spotify_url (js "spotify")]
  /\ poll_loops (run st1 [answered1; Keypress (js "Enter"); answered2]) = 2%nat
  /\ pending (run st1 [answered1; Keypress (js "Enter"); answered2])
     = [AwaitStatus (VStr (js "1")) spotify_url; AwaitStatus (VStr (js "2")) spotify_url].
Proof. vm_compute. repeat split; reflexivity. Qed.

(** *** Rendering a history with one more record *)

Lemma for_each_take {A} (body : A -> completion unit) (n : nat) (l : list A) :
  for_each body l = Normal tt -> for_each body (take n l) = Normal tt.
Proof.
  revert n. induction l as [|a l IH]; intros n H; destruct n; simpl; try reflexivity.
  simpl in H. destruct (body a) as [[]|]; [|discriminate]. simpl in *. auto.
Qed.

Lemma render_downloads_cons (r : value) (l : list value) :
  render_downloads (VArr (r :: l)) =
  (for_each count_files (r :: l) ;; for_each render_item (r :: l)).
Proof. reflexivity. Qed.

Lemma render_downloads_items (l : list value) :
  render_downloads (VArr l) = Normal tt ->
  for_each count_files l = Normal tt /\ for_each render_item l = Normal tt.
Proof.
  destruct l as [|r l]; [split; reflexivity|].
  rewrite render_downloads_cons.
  destruct (for_each count_files (r :: l)) as [[]|]; [|discriminate].
  intros H. split; [reflexivity|exact H].
Qed.

Lemma render_downloads_more (r : value) (l : list value) :
  count_files r = Normal tt -> render_item r = Normal tt ->
  render_downloads (VArr l) = Normal tt ->
  render_downloads (VArr (take 10 (r :: l))) = Normal tt.
Proof.
  intros Hc Hi [Hcs His]%render_downloads_items.
  change (take 10 (r :: l)) with (r :: take 9 l).
  rewrite render_downloads_cons. simpl. rewrite Hc, Hi. simpl.
  rewrite (for_each_take _ 9 l Hcs). simpl. exact (for_each_take _ 9 l His).
Qed.

(** C3, as the script has it. From an idle page on the platform spotify
    whose list was rendered, a click submits a URL that [validateUrl]
    accepts, the submission is answered with a job id, the status is
    'processing' twice and then 'completed' with the title "Song" and the
    files ["song.mp3"]. Then the record with that title, that platform and
    those files is at the head of the history, which gained this one record,
    and four lines were logged in all, the two info lines of the progress
    and two success lines, "[SUCCESS] Download completed!" and "Files ready
    for download"; the page is idle again. *)
Theorem C3_song_run (st : app) (url : jsstring) (id : value) (t1 t2 t3 : jsstring)
    (l : list value) :
  submits st Click = true ->
  Idle st ->
  currentPlatform st = js "spotify" ->
  trim (urlInput st) = url ->
  truthy (VStr url) = true ->
  validateUrl url st = (st, Normal true) ->
  unprintable id = false ->
  downloads st = VArr l ->
  render_downloads (VArr l) = Normal tt ->
  let st' := run st (song_run id t1 t2 t3) in
  let record := song_record url t3 in
  emitted st st' =
    [ progress (js "spotify") (VStr (js "processing"));
      progress (js "spotify") (VStr (js "processing"));
      completed1; completed2 ]
  /\ length (emitted st st') = 4%nat
  /\ count_type info (emitted st st') = 2%nat
  /\ count_type success (emitted st st') = 2%nat
  /\ count_type error (emitted st st') = 0%nat
  /\ downloads st' = VArr (take 10 (record :: l))
  /\ take 10 (record :: l) !! 0%nat = Some record
  /\ drop 1 (take 10 (record :: l)) = take 9 l
  /\ get_prop record (js "title") = Normal (VStr (js "Song"))
  /\ get_prop record (js "platform") = Normal (VStr (js "spotify"))
  /\ get_prop record (js "files") = Normal (VArr [VStr (js "song.mp3")])
  /\ network st' = network st ++ [ PostDownload url (js "spotify"); GetStatus (shown id);
                                   GetStatus (shown id); GetStatus (shown id) ]
  /\ Idle st'.
Proof.
  intros Hs Hi Hp Hu Ht Hv Hid Hd Hr st' record.
  assert (Hrun : st' =
    set_pending []
      (set_button false (js "Download")
        (set_urlInput []
          (set_persisted (Some (VArr (take 10 (record :: l))))
            (set_downloads (VArr (take 10 (record :: l)))
              (set_statusLog (statusLog st ++
                 [ progress (js "spotify") (VStr (js "processing"));
                   progress (js "spotify") (VStr (js "processing"));
                   completed1; completed2 ])
                (set_network (network st ++
                   [ PostDownload url (js "spotify"); GetStatus (shown id);
                     GetStatus (shown id); GetStatus (shown id) ]) st))))))).
  { subst st'. unfold song_run.
    rewrite run_cons, (step_submits st Click Hs), (launch_accepts st url Hu Ht Hv).
    unfold Idle in Hi.
    destruct st as [cp dl bd ui ds ca sl ps nw pd]; simpl in Hi, Hp, Hd. subst pd cp dl.
    rewrite run_cons.
    erewrite (step_submitted _ 0 url (job id) id) by first [exact Hid | reflexivity].
    rewrite run_cons.
    erewrite (step_waiting _ 0 id url processing t1) by reflexivity.
    rewrite run_cons.
    erewrite (step_timer _ 0 id url) by first [exact Hid | reflexivity].
    rewrite run_cons.
    erewrite (step_waiting _ 0 id url processing t2) by reflexivity.
    rewrite run_cons.
    erewrite (step_timer _ 0 id url) by first [exact Hid | reflexivity].
    rewrite run_cons.
    erewrite (step_completed _ 0 id url song t3 l record)
      by first [exact (render_downloads_more record l eq_refl eq_refl Hr) | reflexivity].
    rewrite run_nil.
    fields. rewrite <- !app_assoc. reflexivity. }
  assert (He : emitted st st' =
    [ progress (js "spotify") (VStr (js "processing"));
      progress (js "spotify") (VStr (js "processing"));
      completed1; completed2 ]).
  { unfold emitted. rewrite Hrun. destruct st; fields. apply drop_app_length. }
  rewrite He, Hrun. destruct st; fields.
  repeat split; reflexivity.
Qed.

Lemma C3_witness :
  let st := step (started None) (Typed spotify_url) in
  let st' := run st (song_run (VStr (js "1")) (js "10:00:01") (js "10:00:02") (js "10:00:03")) in
  (submits st Click = true /\ Idle st /\ currentPlatform st = js "spotify"
   /\ trim (urlInput st) = spotify_url /\ truthy (VStr spotify_url) = true
   /\ validateUrl spotify_url st = (st, Normal true)
   /\ unprintable (VStr (js "1")) = false
   /\ downloads st = VArr [] /\ render_downloads (VArr []) = Normal tt)
  /\ length (emitted st st') = 4%nat
  /\ count_type info (emitted st st') = 2%nat
  /\ count_type success (emitted st st') = 2%nat
  /\ downloads st' = VArr [song_record spotify_url (js "10:00:03")].
Proof.
  intros st st'. split; [repeat split; reflexivity|].
  pose proof (C3_song_run st spotify_url (VStr (js "1"))
                (js "10:00:01") (js "10:00:02") (js "10:00:03") []
                eq_refl eq_refl eq_refl eq_refl eq_refl eq_refl eq_refl eq_refl eq_refl) as H.
  destruct H as (_ & Hn & Hi & Hs & _ & Hd & _).
  split; [exact Hn|]. split; [exact Hi|]. split; [exact Hs|]. exact Hd.
Defined.

(** C3 as the claim states it fails: in the run of the specification, from
    a page just started, four lines are logged, two of them success lines;
    they are not three lines of which one is a success line. *)
Lemma C3_counterexample :
  let st := step (started None) (Typed spotify_url) in
  let st' := run st (song_run (VStr (js "1")) (js "10:00:01") (js "10:00:02") (js "10:00:03")) in
  length (emitted st st') = 4%nat
  /\ count_type success (emitted st st') = 2%nat
  /\ ~ (length (emitted st st') = 3%nat
        /\ count_type info (emitted st st') = 2%nat
        /\ count_type success (emitted st st') = 1%nat).
Proof.
  vm_compute. split; [reflexivity|]. split; [reflexivity|].
  intros [H _]. discriminate H.
Qed.

(** *** A loop that waits *)

Lemma step_tick (st : app) (id : value) (url : jsstring) (a : value * jsstring) :
  pending st = [AwaitStatus id url] ->
  unprintable id = false ->
  waiting (fst a) = true ->
  run st (ticks 0 [a]) =
  set_network (network st ++ [GetStatus (shown id)])
    (set_statusLog (statusLog st ++ [progress (currentPlatform st) (state_of (fst a))]) st).
Proof.
  intros Hp Hid Hw. unfold ticks. simpl flat_map.
  rewrite run_cons. erewrite (step_waiting st 0 id url) by first [exact Hw | rewrite Hp; reflexivity].
  rewrite run_cons. erewrite (step_timer _ 0 id url) by first [exact Hid | rewrite Hp; reflexivity].
  rewrite run_nil. destruct st as [cp dl bd ui ds ca sl ps nw pd]; simpl in *. subst pd.
  reflexivity.
Qed.

Lemma run_ticks (answers : list (value * jsstring)) (st : app) (id : value) (url : jsstring) :
  pending st = [AwaitStatus id url] ->
  unprintable id = false ->
  Forall (fun a => waiting (fst a) = true) answers ->
  let st' := run st (ticks 0 answers) in
  pending st' = [AwaitStatus id url]
  /\ currentPlatform st' = currentPlatform st
  /\ downloads st' = downloads st
  /\ persisted st' = persisted st
  /\ disabled st' = disabled st
  /\ statusLog st' = statusLog st
       ++ List.map (fun a => progress (currentPlatform st) (state_of (fst a))) answers
  /\ network st' = network st ++ repeat (GetStatus (shown id)) (length answers).
Proof.
  revert st. induction answers as [|a answers IH]; intros st Hp Hid Hw st'; subst st'.
  - change (ticks 0 []) with (@nil event). rewrite run_nil. simpl.
    rewrite !app_nil_r. repeat split; auto.
  - inversion Hw as [|? ? Ha Hrest]; subst.
    change (ticks 0 (a :: answers)) with (ticks 0 [a] ++ ticks 0 answers).
    rewrite run_app, (step_tick st id url a Hp Hid Ha).
    match goal with |- context [run ?s (ticks 0 answers)] => specialize (IH s) end.
    destruct st as [cp dl bd ui ds ca sl ps nw pd]. simpl in Hp. subst pd.
    destruct (IH eq_refl Hid Hrest) as (H1 & H2 & H3 & H4 & H5 & H6 & H7).
    rewrite H1, H2, H3, H4, H5, H6, H7. fields. simpl List.map. simpl length. simpl repeat.
    rewrite <- !app_assoc. repeat split; reflexivity.
Qed.

(** C5. When the request for the status fails (the promise of [fetch] or of
    [response.json()] is rejected), the loop ends at once: the task is gone,
    no further request is made, one error line "Status check failed: ..." is
    logged, the button is enabled again, and neither the history nor the
    storage changes. So for a single download whose loop got any number of
    answers that kept it waiting before the failure: the page is idle
    again, no record was created or committed, one request was made per
    answer and none after the failure. *)
Theorem C5_failed_status_request_ends_the_loop :
  (forall (st : app) (i : nat) (id : value) (url : jsstring) (e : exn) (now : jsstring),
      pending st !! i = Some (AwaitStatus id url) ->
      let st' := step st (StatusSettled i (Rejected e) now) in
      pending st' = delete i (pending st)
      /\ network st' = network st
      /\ downloads st' = downloads st
      /\ persisted st' = persisted st
      /\ statusLog st' = statusLog st ++ [failed e]
      /\ type (failed e) = error
      /\ disabled st' = false
      /\ (pending st = [AwaitStatus id url] -> Idle st'))
  /\ (forall (st : app) (id : value) (url : jsstring) (answers : list (value * jsstring))
        (e : exn) (now : jsstring),
      pending st = [AwaitStatus id url] ->
      unprintable id = false ->
      Forall (fun a => waiting (fst a) = true) answers ->
      let st' := run st (ticks 0 answers ++ [StatusSettled 0 (Rejected e) now]) in
      Idle st'
      /\ downloads st' = downloads st
      /\ persisted st' = persisted st
      /\ disabled st' = false
      /\ statusLog st' = statusLog st
           ++ List.map (fun a => progress (currentPlatform st) (state_of (fst a))) answers
           ++ [failed e]
      /\ network st' = network st ++ repeat (GetStatus (shown id)) (length answers)).
Proof.
  split.
  - intros st i id url e now Hp st'. subst st'.
    rewrite (step_rejected st i id url e now Hp).
    destruct st as [cp dl bd ui ds ca sl ps nw pd]. unfold Idle. fields.
    simpl in Hp. repeat split.
    intros ->. destruct i as [|i]; [reflexivity|].
    destruct i; discriminate Hp.
  - intros st id url answers e now Hp Hid Hw st'. subst st'.
    rewrite run_app, run_cons, run_nil.
    destruct (run_ticks answers st id url Hp Hid Hw) as (H1 & H2 & H3 & H4 & H5 & H6 & H7).
    erewrite (step_rejected _ 0 id url) by (rewrite H1; reflexivity).
    destruct (run st (ticks 0 answers)) as [cp dl bd ui ds ca sl ps nw pd].
    unfold Idle. fields. simpl in H1, H2, H3, H4, H5, H6, H7.
    subst. rewrite <- app_assoc. repeat split; reflexivity.
Qed.

Lemma C5_witness :
  let st := run (started None)
              [Typed spotify_url; Click; SubmitSettled 0 (Fulfilled (true, job (VStr (js "1"))))] in
  let lost := StatusSettled 0 (Rejected (Rejection (js "Failed to fetch"))) (js "10:00:02") in
  (pending st = [AwaitStatus (VStr (js "1")) spotify_url]
   /\ unprintable (VStr (js "1")) = false
   /\ Forall (fun a => waiting (fst a) = true) [(processing, js "10:00:01")])
  /\ Idle (step st lost)
  /\ downloads (step st lost) = VArr []
  /\ Idle (run st (ticks 0 [(processing, js "10:00:01")] ++ [lost]))
  /\ downloads (run st (ticks 0 [(processing, js "10:00:01")] ++ [lost])) = VArr []
  /\ persisted (run st (ticks 0 [(processing, js "10:00:01")] ++ [lost])) = None.
Proof.
  intros st lost.
  assert (Hw : Forall (fun a => waiting (fst a) = true) [(processing, js "10:00:01")])
    by (constructor; [reflexivity|constructor]).
  split; [split; [reflexivity|split; [reflexivity|exact Hw]]|].
  pose proof (proj1 C5_failed_status_request_ends_the_loop st 0%nat (VStr (js "1")) spotify_url
                (Rejection (js "Failed to fetch")) (js "10:00:02") eq_refl) as H1.
  pose proof (proj2 C5_failed_status_request_ends_the_loop st (VStr (js "1")) spotify_url
                [(processing, js "10:00:01")] (Rejection (js "Failed to fetch")) (js "10:00:02")
                eq_refl eq_refl Hw) as H2.
  destruct H1 as (_ & _ & Hd1 & _ & _ & _ & _ & Hi1).
  destruct H2 as (Hi2 & Hd2 & Hp2 & _).
  split; [exact (Hi1 eq_refl)|]. split; [exact Hd1|].
  split; [exact Hi2|]. split; [exact Hd2|exact Hp2].
Defined.

(** *** [encodeURIComponent] puts out nothing but unreserved units and escapes *)

Lemma encode_cons (c : N) (s : jsstring) :
  encodeURIComponent (c :: s) =
  if unreserved c then rest ← encodeURIComponent s; Normal (c :: rest)
  else if is_trail c then Throw (Engine URIError)
  else if is_lead c then
    match s with
    | d :: s'' =>
        if is_trail d
        then rest ← encodeURIComponent s''; Normal (escape (pair_point c d) ++ rest)
        else Throw (Engine URIError)
    | [] => Throw (Engine URIError)
    end
  else rest ← encodeURIComponent s; Normal (escape c ++ rest).
Proof. reflexivity. Qed.

Lemma hex_digit_unreserved (n : N) : unreserved (hex_digit n) = true.
Proof.
  unfold hex_digit. generalize (N.to_nat n) as k. intros k.
  do 16 (destruct k as [|k]; [reflexivity|]). destruct k; reflexivity.
Qed.

Lemma percent_safe (octet : N) : Forall (fun c => uri_safe c = true) (percent octet).
Proof.
  unfold percent, uri_safe. repeat constructor; rewrite hex_digit_unreserved; reflexivity.
Qed.

Lemma escape_safe (cp : N) : Forall (fun c => uri_safe c = true) (escape cp).
Proof.
  unfold escape. induction (utf8 cp) as [|o l IH]; [constructor|].
  change (flat_map percent (o :: l)) with (percent o ++ flat_map percent l).
  apply Forall_app. split; [apply percent_safe|exact IH].
Qed.

Lemma unreserved_ascii (c : N) : unreserved c = true -> c < 128.
Proof.
  unfold unreserved, in_range, unit_eqb.
  change (js "-_.!~*'()") with [45; 95; 46; 33; 126; 42; 39; 40; 41]. simpl existsb.
  rewrite !orb_true_iff, !andb_true_iff, !N.leb_le, !N.eqb_eq. lia.
Qed.

Lemma unreserved_not_surrogate (c : N) :
  unreserved c = true -> is_trail c = false /\ is_lead c = false.
Proof.
  intros H%unreserved_ascii. unfold is_trail, is_lead, in_range.
  split; apply andb_false_iff; left; apply N.leb_gt; lia.
Qed.

Lemma encode_safe_bounded (n : nat) (s out : jsstring) :
  (length s <= n)%nat ->
  encodeURIComponent s = Normal out -> Forall (fun c => uri_safe c = true) out.
Proof.
  revert s out. induction n as [|n IH]; intros s out Hl H.
  - destruct s; [|simpl in Hl; lia]. injection H as <-. constructor.
  - destruct s as [|c s]; [injection H as <-; constructor|].
    rewrite encode_cons in H. simpl in Hl.
    destruct (unreserved c) eqn:Hu.
    + destruct (encodeURIComponent s) as [rest|] eqn:E; [|discriminate].
      injection H as <-. constructor; [unfold uri_safe; rewrite Hu; reflexivity|].
      apply (IH s); [lia|exact E].
    + destruct (is_trail c); [discriminate|]. destruct (is_lead c).
      * destruct s as [|d s']; [discriminate|]. destruct (is_trail d); [|discriminate].
        destruct (encodeURIComponent s') as [rest|] eqn:E; [|discriminate].
        injection H as <-. apply Forall_app. split; [apply escape_safe|].
        apply (IH s'); [simpl in Hl; lia|exact E].
      * destruct (encodeURIComponent s) as [rest|] eqn:E; [|discriminate].
        injection H as <-. apply Forall_app. split; [apply escape_safe|].
        apply (IH s); [lia|exact E].
Qed.

Lemma encode_safe (s out : jsstring) :
  encodeURIComponent s = Normal out -> Forall (fun c => uri_safe c = true) out.
Proof. apply (encode_safe_bounded (length s)). lia. Qed.

(** [encodeURIComponent] answers on the well-formed strings and raises a
    URIError on the others. *)
Lemma encode_well_formed_bounded (n : nat) (s : jsstring) :
  (length s <= n)%nat ->
  if well_formed s
  then exists out, encodeURIComponent s = Normal out
  else encodeURIComponent s = Throw (Engine URIError).
Proof.
  revert s. induction n as [|n IH]; intros s Hl.
  - destruct s; [|simpl in Hl; lia]. simpl. eauto.
  - destruct s as [|c s]; [simpl; eauto|].
    rewrite encode_cons. simpl in Hl. simpl well_formed.
    destruct (unreserved c) eqn:Hu.
    + destruct (unreserved_not_surrogate c Hu) as [-> ->].
      specialize (IH s ltac:(lia)). destruct (well_formed s).
      * destruct IH as [rest ->]. simpl. eauto.
      * rewrite IH. reflexivity.
    + destruct (is_trail c); [reflexivity|]. destruct (is_lead c).
      * destruct s as [|d s']; [reflexivity|]. destruct (is_trail d); [|reflexivity].
        simpl. specialize (IH s' ltac:(simpl in Hl; lia)). destruct (well_formed s').
        -- destruct IH as [rest ->]. simpl. eauto.
        -- rewrite IH. reflexivity.
      * specialize (IH s ltac:(lia)). destruct (well_formed s).
        -- destruct IH as [rest ->]. simpl. eauto.
        -- rewrite IH. reflexivity.
Qed.

Lemma str_eqb_eq (s t : jsstring) : str_eqb s t = true <-> s = t.
Proof.
  revert t. induction s as [|c s IH]; intros [|d t]; simpl; try (split; congruence).
  unfold unit_eqb. rewrite andb_true_iff, N.eqb_eq, IH. split; [intros [-> ->]|intros [= -> ->]]; auto.
Qed.


(** *** [encodeURIComponent] can be undone *)

Ltac div_lia := zify; Z.to_euclidean_division_equations; lia.

Lemma hex_value_digit (n : N) : n < 16 -> hex_value (hex_digit n) = Some n.
Proof.
  intros H. rewrite <- (N2Nat.id n) in *. generalize dependent (N.to_nat n). intros k H.
  do 16 (destruct k as [|k]; [reflexivity|]). lia.
Qed.

Lemma unescape_percent (o : N) (rest : jsstring) :
  o < 256 -> unescape (percent o ++ rest) = cons o <$> unescape rest.
Proof.
  intros H. 
  assert (H1 : N.shiftr o 4 < 16 /\ N.land o 15 < 16 /\ 16 * N.shiftr o 4 + N.land o 15 = o).
  { rewrite N.shiftr_div_pow2. change 15 with (N.ones 4). rewrite N.land_ones.
    change (2^4) with 16. div_lia. }
  destruct H1 as (Ha & Hb & Hc).
  unfold percent. cbn [List.app unescape]. change (37 =? 37) with true. cbv iota.
  rewrite (hex_value_digit _ Ha), (hex_value_digit _ Hb). cbn [mbind option_bind].
  rewrite Hc. destruct (unescape rest); reflexivity.
Qed.

Lemma utf8_octets (cp : N) : Forall (fun o => o < 256) (utf8 cp).
Proof.
  unfold utf8.
  destruct (N.ltb_spec cp 128); [repeat constructor; lia|].
  destruct (N.ltb_spec cp 2048); [repeat constructor; div_lia|].
  destruct (N.ltb_spec cp 65536); repeat constructor; div_lia.
Qed.

Lemma unescape_octets (octets : list N) (rest : jsstring) :
  Forall (fun o => o < 256) octets ->
  unescape (flat_map percent octets ++ rest) = List.app octets <$> unescape rest.
Proof.
  induction 1 as [|o l Ho Hl IH].
  - simpl. destruct (unescape rest); reflexivity.
  - change (flat_map percent (o :: l)) with (percent o ++ flat_map percent l).
    rewrite <- app_assoc, (unescape_percent o _ Ho), IH.
    destruct (unescape rest); reflexivity.
Qed.

Lemma decode_utf8_point (cp : N) (octets : list N) :
  cp < 1114112 -> decode_utf8 (utf8 cp ++ octets) = cons cp <$> decode_utf8 octets.
Proof.
  intros H. unfold utf8.
  destruct (N.ltb_spec cp 128) as [H1|H1].
  { cbn [List.app decode_utf8]. destruct (N.ltb_spec cp 128); [reflexivity|lia]. }
  destruct (N.ltb_spec cp 2048) as [H2|H2].
  { cbn [List.app decode_utf8].
    destruct (N.ltb_spec (192 + cp / 64) 128); [div_lia|].
    destruct (N.ltb_spec (192 + cp / 64) 224); [|div_lia].
    replace ((192 + cp / 64 - 192) * 64 + (128 + cp mod 64 - 128)) with cp by div_lia.
    reflexivity. }
  destruct (N.ltb_spec cp 65536) as [H3|H3].
  { cbn [List.app decode_utf8].
    destruct (N.ltb_spec (224 + cp / 4096) 128); [div_lia|].
    destruct (N.ltb_spec (224 + cp / 4096) 224); [div_lia|].
    destruct (N.ltb_spec (224 + cp / 4096) 240); [|div_lia].
    replace ((224 + cp / 4096 - 224) * 4096 + (128 + (cp / 64) mod 64 - 128) * 64
             + (128 + cp mod 64 - 128)) with cp by div_lia.
    reflexivity. }
  cbn [List.app decode_utf8].
  destruct (N.ltb_spec (240 + (cp / 262144) mod 8) 128); [div_lia|].
  destruct (N.ltb_spec (240 + (cp / 262144) mod 8) 224); [div_lia|].
  destruct (N.ltb_spec (240 + (cp / 262144) mod 8) 240); [div_lia|].
  replace ((240 + (cp / 262144) mod 8 - 240) * 262144 + (128 + (cp / 4096) mod 64 - 128) * 4096
           + (128 + (cp / 64) mod 64 - 128) * 64 + (128 + cp mod 64 - 128)) with cp by div_lia.
  reflexivity.
Qed.

Lemma read_back_unit (c : N) (rest : jsstring) :
  unreserved c = true -> read_back (c :: rest) = cons c <$> read_back rest.
Proof.
  intros Hu. pose proof (unreserved_ascii c Hu) as Hc.
  assert (H37 : (c =? 37) = false).
  { destruct (N.eqb_spec c 37) as [->|]; [discriminate Hu|reflexivity]. }
  unfold read_back. cbn [unescape]. rewrite H37.
  destruct (unescape rest) as [o|]; [|reflexivity]. cbn [fmap option_fmap option_map mbind option_bind].
  cbn [decode_utf8]. destruct (N.ltb_spec c 128); [|lia].
  destruct (decode_utf8 o) as [cps|]; [|reflexivity].
  cbn [fmap option_fmap option_map mbind option_bind flat_map].
  unfold to_utf16 at 1. destruct (N.ltb_spec c 65536); [reflexivity|lia].
Qed.

Lemma read_back_escape (cp : N) (rest : jsstring) :
  cp < 1114112 -> read_back (escape cp ++ rest) = List.app (to_utf16 cp) <$> read_back rest.
Proof.
  intros H. unfold read_back, escape. rewrite (unescape_octets _ _ (utf8_octets cp)).
  destruct (unescape rest) as [o|]; [|reflexivity]. cbn [fmap option_fmap option_map mbind option_bind].
  rewrite (decode_utf8_point cp o H).
  destruct (decode_utf8 o) as [cps|]; reflexivity.
Qed.

Lemma surrogate_pair (c d : N) :
  is_lead c = true -> is_trail d = true ->
  pair_point c d < 1114112 /\ to_utf16 (pair_point c d) = [c; d].
Proof.
  unfold is_lead, is_trail, in_range, pair_point, to_utf16.
  rewrite !andb_true_iff, !N.leb_le. intros [] [].
  split; [lia|]. destruct (N.ltb_spec ((c - 55296) * 1024 + (d - 56320) + 65536) 65536); [lia|].
  f_equal; [|f_equal]; div_lia.
Qed.

Lemma read_back_encode_bounded (n : nat) (s out : jsstring) :
  (length s <= n)%nat ->
  is_string s ->
  encodeURIComponent s = Normal out -> read_back out = Some s.
Proof.
  revert s out. induction n as [|n IH]; intros s out Hl Hv H.
  - destruct s; [|simpl in Hl; lia]. injection H as <-. reflexivity.
  - destruct s as [|c s]; [injection H as <-; reflexivity|].
    rewrite encode_cons in H. simpl in Hl.
    inversion Hv as [|? ? Hc Hs]; subst.
    destruct (unreserved c) eqn:Hu.
    + destruct (encodeURIComponent s) as [rest|] eqn:E; [|discriminate].
      injection H as <-. rewrite (read_back_unit c rest Hu), (IH s rest); [reflexivity|lia|exact Hs|exact E].
    + destruct (is_trail c); [discriminate|]. destruct (is_lead c) eqn:Hlead.
      * destruct s as [|d s']; [discriminate|]. destruct (is_trail d) eqn:Htrail; [|discriminate].
        destruct (encodeURIComponent s') as [rest|] eqn:E; [|discriminate].
        injection H as <-. destruct (surrogate_pair c d Hlead Htrail) as [Hp H16].
        inversion Hs; subst.
        rewrite (read_back_escape _ rest Hp), H16, (IH s' rest); [reflexivity|simpl in Hl; lia|assumption|exact E].
      * destruct (encodeURIComponent s) as [rest|] eqn:E; [|discriminate].
        injection H as <-.
        rewrite (read_back_escape c rest ltac:(lia)), (IH s rest); [|lia|exact Hs|exact E].
        unfold to_utf16. destruct (N.ltb_spec c 65536); [reflexivity|lia].
Qed.

Lemma escape_head (cp : N) : exists rest, escape cp = 37 :: rest.
Proof.
  unfold escape, utf8.
  destruct (cp <? 128); [|destruct (cp <? 2048); [|destruct (cp <? 65536)]];
    cbn [flat_map percent List.app]; eexists; reflexivity.
Qed.

Lemma encode_unreserved_bounded (n : nat) (s out : jsstring) :
  (length s <= n)%nat ->
  encodeURIComponent s = Normal out ->
  Forall (fun c => unreserved c = true) out -> s = out.
Proof.
  revert s out. induction n as [|n IH]; intros s out Hl H Hu.
  - destruct s; [|simpl in Hl; lia]. injection H as <-. reflexivity.
  - destruct s as [|c s]; [injection H as <-; reflexivity|].
    rewrite encode_cons in H. simpl in Hl.
    destruct (unreserved c) eqn:Hc.
    + destruct (encodeURIComponent s) as [rest|] eqn:E; [|discriminate].
      injection H as <-. inversion Hu; subst. f_equal. apply (IH s); [lia|exact E|assumption].
    + destruct (is_trail c); [discriminate|]. destruct (is_lead c).
      * destruct s as [|d s']; [discriminate|]. destruct (is_trail d); [|discriminate].
        destruct (encodeURIComponent s') as [rest|] eqn:E; [|discriminate].
        injection H as <-. destruct (escape_head (pair_point c d)) as [r Hr].
        rewrite Hr in Hu. inversion Hu; subst. discriminate.
      * destruct (encodeURIComponent s) as [rest|] eqn:E; [|discriminate].
        injection H as <-. destruct (escape_head c) as [r Hr].
        rewrite Hr in Hu. inversion Hu; subst. discriminate.
Qed.

Lemma encode_dots (file encoded : jsstring) :
  encodeURIComponent file = Normal encoded ->
  (encoded = js "." <-> file = js ".") /\ (encoded = js ".." <-> file = js "..").
Proof.
  intros H. split; split; intros E.
  - rewrite <- E. apply (encode_unreserved_bounded (length file) file encoded); [lia|exact H|].
    rewrite E. repeat constructor.
  - rewrite E in H. injection H as <-. reflexivity.
  - rewrite <- E. apply (encode_unreserved_bounded (length file) file encoded); [lia|exact H|].
    rewrite E. repeat constructor.
  - rewrite E in H. injection H as <-. reflexivity.
Qed.

(** A name whose encoding is a dot segment is a dot segment itself: no
    escape that [encodeURIComponent] writes stands for a dot. *)
Lemma encode_dot_segment (file encoded : jsstring) :
  is_string file ->
  encodeURIComponent file = Normal encoded ->
  (dot_segment encoded = true <-> file = js "." \/ file = js "..").
Proof.
  intros Hs He. split.
  - intros H. apply existsb_exists in H as (e & Hin & Heq). apply str_eqb_eq in Heq. subst e.
    pose proof (read_back_encode_bounded (length file) file encoded ltac:(lia) Hs He) as R.
    clear He Hs. unfold dot_segments in Hin. cbn [List.map In] in Hin.
    repeat (destruct Hin as [<-|Hin];
            [vm_compute in R; injection R as <-; first [left; reflexivity|right; reflexivity]|]).
    destruct Hin.
  - intros [->| ->]; vm_compute in He; injection He as <-; reflexivity.
Qed.

(** C6, as the script has it. For every platform and every file name in
    which each surrogate has its partner, the link is the base of the link,
    which does not depend on the file name, followed by the file name as
    [encodeURIComponent] encodes it: unreserved units and percent escapes
    only. So none of '/', '?', '#', '&' occurs in the part of the link that
    comes from the file name, whatever the file name contains: the link has
    as many of each as its base. The dots are not escaped: the encoded name
    is '.' or '..' exactly when the file name is, and for a string of
    JavaScript it is a dot segment of a URL ('.', '..', or these with '%2e'
    for a dot) exactly when the file name is '.' or '..'; so these two names
    reach the link as dot segments, and no other name does. On a file name
    with a lone surrogate [encodeURIComponent] raises a URIError and there
    is no link. *)
Theorem C6_file_link_is_percent_encoded (platform file : jsstring) :
  (well_formed file = true ->
     exists encoded,
       encodeURIComponent file = Normal encoded
       /\ fileLink platform file = Normal (link_base platform ++ encoded)
       /\ Forall (fun c => uri_safe c = true) encoded
       /\ (forall c, In c delimiters -> ~ In c encoded)
       /\ (forall c, In c delimiters ->
             count_occ N.eq_dec (link_base platform ++ encoded) c
             = count_occ N.eq_dec (link_base platform) c)
       /\ (encoded = js "." <-> file = js ".")
       /\ (encoded = js ".." <-> file = js "..")
       /\ (is_string file ->
             (dot_segment encoded = true <-> file = js "." \/ file = js "..")))
  /\ (well_formed file = false -> fileLink platform file = Throw (Engine URIError)).
Proof.
  pose proof (encode_well_formed_bounded (length file) file ltac:(lia)) as H.
  split; intros Hw; rewrite Hw in H.
  - destruct H as [encoded He]. exists encoded.
    pose proof (encode_safe file encoded He) as Hs.
    assert (Hd : forall c, In c delimiters -> ~ In c encoded).
    { intros c Hc Hin. rewrite Forall_forall in Hs. specialize (Hs c Hin).
      simpl in Hc. destruct Hc as [<-|[<-|[<-|[<-|[]]]]]; discriminate Hs. }
    split; [exact He|]. split; [|split; [exact Hs|split; [exact Hd|split; [|split; [|split]]]]].
    + unfold fileLink, link_base. rewrite He. simpl. rewrite <- !app_assoc. reflexivity.
    + intros c Hc. rewrite count_occ_app.
      rewrite (proj1 (count_occ_not_In N.eq_dec encoded c) (Hd c Hc)). lia.
    + exact (proj1 (encode_dots file encoded He)).
    + exact (proj2 (encode_dots file encoded He)).
    + intros Hstr. exact (encode_dot_segment file encoded Hstr He).
  - unfold fileLink. rewrite H. reflexivity.
Qed.

Lemma C6_witness :
  well_formed (js "a b/c?d#e&f.mp3") = true
  /\ fileLink (js "spotify") (js "a b/c?d#e&f.mp3")
     = Normal (js "http://localhost:5000/download-file/spotify/a%20b%2Fc%3Fd%23e%26f.mp3")
  /\ well_formed [55357] = false
  /\ fileLink (js "spotify") [55357] = Throw (Engine URIError).
Proof.
  split; [reflexivity|].
  destruct (proj1 (C6_file_link_is_percent_encoded (js "spotify") (js "a b/c?d#e&f.mp3")) eq_refl)
    as (encoded & He & Hl & _).
  split.
  - rewrite Hl. f_equal. injection He as <-. reflexivity.
  - split; [reflexivity|].
    exact (proj2 (C6_file_link_is_percent_encoded (js "spotify") [55357]) eq_refl).
Defined.

(** C6 as the claim states it fails: for the file name made of the lone
    surrogate U+D83D the builder has no output; and the file name '..'
    reaches the link as it is, a dot segment after the platform. *)
Lemma C6_counterexample :
  (fileLink (js "spotify") [55357] = Throw (Engine URIError)
   /\ ~ exists href, fileLink (js "spotify") [55357] = Normal href)
  /\ (fileLink (js "spotify") (js "..")
      = Normal (js "http://localhost:5000/download-file/spotify/..")
      /\ dot_segment (js "..") = true).
Proof.
  split; [split; [reflexivity|intros [href H]; discriminate H]|].
  split; reflexivity.
Qed.

(** ** Further properties of the script *)

(** X1 (specification, section 8, item 8). A submission whose URL is not
    empty and that [validateUrl] refuses logs one line, the error "Invalid
    URL for selected platform", and changes nothing else: no request is made
    and no task is started. *)
Theorem X1_refused_url_is_rejected (st : app) (ev : event) (url : jsstring) :
  submits st ev = true ->
  trim (urlInput st) = url ->
  truthy (VStr url) = true ->
  validateUrl url st = (st, Normal false) ->
  step st ev = set_statusLog (statusLog st ++ [invalid]) st
  /\ type invalid = error
  /\ network (step st ev) = network st
  /\ pending (step st ev) = pending st.
Proof.
  intros Hs Hu Ht Hv. rewrite (step_submits st ev Hs).
  assert (E : launch st = set_statusLog (statusLog st ++ [invalid]) st).
  { unfold launch, startDownload. monad. rewrite Hu, Ht. monad. rewrite Hv. reflexivity. }
  rewrite E. destruct st; repeat split; reflexivity.
Qed.

Lemma X1_witness :
  let st := step (started None) (Typed (js "https://www.youtube.com/watch?v=abc")) in
  (submits st Click = true
   /\ trim (urlInput st) = js "https://www.youtube.com/watch?v=abc"
   /\ validateUrl (js "https://www.youtube.com/watch?v=abc") st = (st, Normal false))
  /\ statusLog (step st Click) = [initialized; invalid]
  /\ network (step st Click) = [].
Proof.
  intros st. split; [repeat split; reflexivity|].
  destruct (X1_refused_url_is_rejected st Click (js "https://www.youtube.com/watch?v=abc")
              eq_refl eq_refl eq_refl eq_refl) as (He & _ & Hn & _).
  split; [rewrite He; reflexivity|exact Hn].
Defined.

(** X2. A status whose [status] is ['error'] ends the loop: the task is
    gone, one error line "Error: ..." with the [error] of the status is
    logged, the button is enabled again, and the history, the storage and
    the requests made stay as they were. *)
Theorem X2_error_status_ends_the_loop (st : app) (i : nat) (id : value) (url : jsstring)
    (status reason : value) (now : jsstring) :
  pending st !! i = Some (AwaitStatus id url) ->
  get_prop status (js "status") = Normal (VStr (js "error")) ->
  get_prop status (js "error") = Normal reason ->
  unprintable reason = false ->
  step st (StatusSettled i (Fulfilled status) now) =
  set_pending (delete i (pending st))
    (set_button false (js "Download") (set_statusLog (statusLog st ++ [reported reason]) st)).
Proof.
  intros Hp Hs He Hu. unfold step. rewrite Hp.
  unfold resume, guarded, poll_settled. monad.
  rewrite Hs. change (is_str (VStr (js "error")) (js "completed")) with false.
  change (is_str (VStr (js "error")) (js "error")) with true.
  monad. rewrite He, (show_printable _ Hu). destruct st; reflexivity.
Qed.

Lemma X2_witness :
  let st := run (started None)
              [Typed spotify_url; Click; SubmitSettled 0 (Fulfilled (true, job (VStr (js "1"))))] in
  let status := VObj [(js "status", VStr (js "error")); (js "error", VStr (js "not found"))] in
  pending st !! 0%nat = Some (AwaitStatus (VStr (js "1")) spotify_url)
  /\ Idle (step st (StatusSettled 0 (Fulfilled status) (js "10:00:01")))
  /\ downloads (step st (StatusSettled 0 (Fulfilled status) (js "10:00:01"))) = VArr []
  /\ statusLog (step st (StatusSettled 0 (Fulfilled status) (js "10:00:01")))
     = [initialized; reported (VStr (js "not found"))].
Proof.
  intros st status. split; [reflexivity|].
  rewrite (X2_error_status_ends_the_loop st 0 (VStr (js "1")) spotify_url status
             (VStr (js "not found")) (js "10:00:01") eq_refl eq_refl eq_refl eq_refl).
  repeat split; reflexivity.
Defined.



(** *** What every method keeps

    A relation that is reflexive and transitive and that the elementary
    updates of the methods respect is respected by every method, by every
    event and by every run. *)

Section Keeps.
Variable R : app -> app -> Prop.
Hypothesis R_refl : forall st, R st st.
Hypothesis R_trans : forall a b c, R a b -> R b c -> R a c.
Hypothesis R_log : forall st more, R st (set_statusLog (statusLog st ++ more) st).
Hypothesis R_fetch : forall st more, R st (set_network (network st ++ more) st).
Hypothesis R_button : forall st d c, R st (set_button d c st).
Hypothesis R_input : forall st s, R st (set_urlInput s st).
Hypothesis R_platform : forall st p, R st (set_currentPlatform p st).
Hypothesis R_pending : forall st p, R st (set_pending p st).
Hypothesis R_commit : forall st l data,
  downloads st = VArr l ->
  R st (set_persisted (Some (VArr (take 10 (data :: l))))
          (set_downloads (VArr (take 10 (data :: l))) st)).

Lemma keeps_ret {A} (a : A) : keeps R (mret a).
Proof. intros st. apply R_refl. Qed.

Lemma keeps_bind {A B} (m : M A) (f : A -> M B) :
  keeps R m -> (forall a, keeps R (f a)) -> keeps R (m ≫= f).
Proof.
  intros Hm Hf st. specialize (Hm st). unfold mbind, M_mbind.
  destruct (m st) as [st1 [a|e]]; simpl in *; [|exact Hm].
  eapply R_trans; [exact Hm|apply Hf].
Qed.

Lemma keeps_try {A} (m : M A) (h : exn -> M A) :
  keeps R m -> (forall e, keeps R (h e)) -> keeps R (try_catch m h).
Proof.
  intros Hm Hh st. specialize (Hm st). unfold try_catch.
  destruct (m st) as [st1 [a|e]]; simpl in *; [exact Hm|].
  eapply R_trans; [exact Hm|apply Hh].
Qed.

Lemma keeps_read : keeps R read.
Proof. intros st. apply R_refl. Qed.

Lemma keeps_lift {A} (c : completion A) : keeps R (lift c).
Proof. intros st. apply R_refl. Qed.

Lemma keeps_throw {A} (e : exn) : keeps R (@throw A e).
Proof. intros st. apply R_refl. Qed.

Lemma keeps_await {A} (r : settled A) : keeps R (await r).
Proof. destruct r; [apply keeps_ret|apply keeps_throw]. Qed.

Lemma keeps_logStatus (msg : template) (ty : severity) : keeps R (logStatus msg ty).
Proof. intros st. apply R_log. Qed.

Lemma keeps_fetch (r : request) : keeps R (fetch r).
Proof. intros st. apply R_fetch. Qed.

Lemma keeps_button (d : bool) (c : jsstring) : keeps R (update (set_button d c)).
Proof. intros st. apply R_button. Qed.

Lemma keeps_input (s : jsstring) : keeps R (update (set_urlInput s)).
Proof. intros st. apply R_input. Qed.

Lemma keeps_addDownload (data : value) : keeps R (addDownload data).
Proof.
  intros st. unfold addDownload. monad.
  destruct (downloads st) as [| | | | |l|] eqn:Hd; try apply R_refl.
  rewrite kept_take. apply (R_commit st l data Hd).
Qed.

Ltac keeps_step :=
  first
    [ apply keeps_ret | apply keeps_read | apply keeps_lift | apply keeps_throw
    | apply keeps_await | apply keeps_logStatus | apply keeps_fetch
    | apply keeps_button | apply keeps_input | apply keeps_addDownload
    | apply keeps_bind; [|intros]
    | apply keeps_try; [|intros]
    | match goal with
      | |- keeps _ (if ?b then _ else _) => destruct b
      | |- keeps _ (match ?x with _ => _ end) => destruct x
      end ].

Lemma keeps_validateUrl (url : jsstring) : keeps R (validateUrl url).
Proof. unfold validateUrl. repeat keeps_step. Qed.

Lemma keeps_poll_catch (e : exn) : keeps R (poll_catch e).
Proof. unfold poll_catch. repeat keeps_step. Qed.

Lemma keeps_simulate_catch (e : exn) : keeps R (simulate_catch e).
Proof. unfold simulate_catch. repeat keeps_step. Qed.

Lemma keeps_start_catch (e : exn) : keeps R (start_catch e).
Proof. unfold start_catch. repeat keeps_step. Qed.

Lemma keeps_pollDownloadStatus (id : value) (url : jsstring) :
  keeps R (pollDownloadStatus id url).
Proof. unfold pollDownloadStatus. repeat first [apply keeps_poll_catch | keeps_step]. Qed.

Lemma keeps_poll_settled (id : value) (url : jsstring) (r : settled value) (now : jsstring) :
  keeps R (poll_settled id url r now).
Proof. unfold poll_settled. repeat first [apply keeps_poll_catch | keeps_step]. Qed.

Lemma keeps_simulateDownload (url : jsstring) : keeps R (simulateDownload url).
Proof. unfold simulateDownload. repeat first [apply keeps_simulate_catch | keeps_step]. Qed.

Lemma keeps_simulate_settled (url : jsstring) (r : settled (bool * value)) :
  keeps R (simulate_settled url r).
Proof.
  unfold simulate_settled.
  repeat first [apply keeps_simulate_catch | apply keeps_pollDownloadStatus | keeps_step].
Qed.

Lemma keeps_guarded (rest : M (option task)) : keeps R rest -> keeps R (guarded rest).
Proof.
  intros H. unfold guarded. repeat first [apply keeps_start_catch | exact H | keeps_step].
Qed.

Lemma keeps_startDownload : keeps R startDownload.
Proof.
  unfold startDownload.
  repeat first [apply keeps_validateUrl | apply keeps_guarded; apply keeps_simulateDownload
               | keeps_step].
Qed.

Lemma launch_keeps (st : app) : R st (launch st).
Proof.
  unfold launch. pose proof (keeps_startDownload st) as H.
  destruct (startDownload st) as [st1 [[t|]|e]]; simpl in H; try exact H.
  eapply R_trans; [exact H|apply R_pending].
Qed.

Lemma resume_keeps (i : nat) (rest : M (option task)) (st : app) :
  keeps R rest -> R st (resume i rest st).
Proof.
  intros Hr. unfold resume. pose proof (keeps_guarded rest Hr st) as H.
  destruct (guarded rest st) as [st1 [[t|]|e]]; simpl in H;
    (eapply R_trans; [exact H|apply R_pending]).
Qed.

Lemma step_keeps (st : app) (ev : event) : R st (step st ev).
Proof.
  destruct ev; simpl.
  - destruct (bound st && negb (disabled st)); [apply launch_keeps|apply R_refl].
  - destruct (bound st && str_eqb key (js "Enter")); [apply launch_keeps|apply R_refl].
  - destruct (bound st); [apply R_platform|apply R_refl].
  - apply R_input.
  - destruct (pending st !! i) as [[]|]; try apply R_refl.
    apply resume_keeps, keeps_simulate_settled.
  - destruct (pending st !! i) as [[]|]; try apply R_refl.
    apply resume_keeps, keeps_try; [apply keeps_poll_settled|apply keeps_simulate_catch].
  - destruct (pending st !! i) as [[]|]; try apply R_refl.
    apply resume_keeps, keeps_try; [apply keeps_pollDownloadStatus|apply keeps_simulate_catch].
Qed.

Lemma run_keeps (evs : list event) (st : app) : R st (run st evs).
Proof.
  revert st. induction evs as [|ev evs IH]; intros st; [apply R_refl|].
  rewrite run_cons. eapply R_trans; [apply step_keeps|apply IH].
Qed.
End Keeps.

(** *** Invariants of the runs *)

Lemma extends_refl {A} (l : list A) : extends l l.
Proof. exists []. symmetry. apply app_nil_r. Qed.

Lemma extends_trans {A} (a b c : list A) : extends a b -> extends b c -> extends a c.
Proof. intros [m ->] [n ->]. exists (m ++ n). symmetry. apply app_assoc. Qed.

Lemma extends_app {A} (l more : list A) : extends l (l ++ more).
Proof. exists more. reflexivity. Qed.

(** X4. Whatever the events, the log and the list of requests only grow
    at their end: no event removes or rewrites a line that was logged or a
    request that was made. *)
Theorem X4_log_and_requests_only_grow (st : app) (evs : list event) :
  extends (statusLog st) (statusLog (run st evs))
  /\ extends (network st) (network (run st evs)).
Proof.
  apply (run_keeps (fun a b => extends (statusLog a) (statusLog b)
                               /\ extends (network a) (network b))).
  - intros; split; apply extends_refl.
  - intros a b c [] []; split; eapply extends_trans; eassumption.
  - intros [] more; split; [apply extends_app|apply extends_refl].
  - intros [] more; split; [apply extends_refl|apply extends_app].
  - intros [] d c; split; apply extends_refl.
  - intros [] s; split; apply extends_refl.
  - intros [] p; split; apply extends_refl.
  - intros [] p; split; apply extends_refl.
  - intros [] l data _; split; apply extends_refl.
Qed.

Lemma pushed_trans (a b c : app) : pushed a b -> pushed b c -> pushed a c.
Proof.
  intros [Hab|(l & n & Hl & Hn & Hab)] [Hbc|(l' & n' & Hl' & Hn' & Hbc)].
  - left. congruence.
  - right. exists l', n'. repeat split; congruence.
  - right. exists l, n. repeat split; congruence.
  - right. exists l, (n' ++ n). split; [exact Hl|]. split.
    + intros E. apply app_eq_nil in E as [_ E]. contradiction.
    + rewrite Hbc. rewrite Hab in Hl'. injection Hl' as <-.
      rewrite take_app_take, app_assoc. reflexivity.
Qed.

Lemma run_pushed (evs : list event) (st : app) : pushed st (run st evs).
Proof.
  apply (run_keeps pushed).
  - left; reflexivity.
  - apply pushed_trans.
  - intros [] more; left; reflexivity.
  - intros [] more; left; reflexivity.
  - intros [] d c; left; reflexivity.
  - intros [] s; left; reflexivity.
  - intros [] p; left; reflexivity.
  - intros [] p; left; reflexivity.
  - intros [] l data Hd. right. exists l, [data].
    split; [exact Hd|]. split; [discriminate|reflexivity].
Qed.

(** X6. Whatever the events, the history afterwards is the history before,
    or the first 10 of some new records followed by the history before: no
    event reorders the records, changes one, or drops one anywhere but at
    the tail. *)
Theorem X6_history_only_pushed_at_the_head (st : app) (evs : list event) :
  downloads (run st evs) = downloads st
  \/ exists l newer,
       downloads st = VArr l /\ newer <> []
       /\ downloads (run st evs) = VArr (take 10 (newer ++ l)).
Proof. exact (run_pushed evs st). Qed.

(** X7. A history of at most 10 records stays one whatever the events; so
    every state that a page started on an empty storage can reach has a
    history of at most 10 records. *)
Theorem X7_history_stays_bounded :
  (forall (st : app) (evs : list event), bounded st -> bounded (run st evs))
  /\ (forall evs : list event, bounded (run (started None) evs)).
Proof.
  assert (H : forall st evs, bounded st -> bounded (run st evs)).
  { intros st evs (l & Hl & Hn). destruct (run_pushed evs st) as [H|(l' & n & Hl' & _ & H)].
    - exists l. rewrite H. auto.
    - eexists. split; [exact H|]. rewrite length_take. lia. }
  split; [exact H|]. intros evs. apply H. exists []. split; [reflexivity|simpl; lia].
Qed.

Lemma X7_witness :
  bounded (started None)
  /\ bounded (run (started None) [Typed spotify_url; Click; Keypress (js "Enter")]).
Proof.
  assert (H : bounded (started None)) by (exists []; split; [reflexivity|simpl; lia]).
  split; [exact H|].
  exact (proj1 X7_history_stays_bounded (started None) _ H).
Defined.

Lemma guarded_pending (rest : M (option task)) (st : app) :
  keeps same_pending rest -> pending (fst (guarded rest st)) = pending st.
Proof.
  intros H. apply (keeps_guarded same_pending); try exact H; unfold same_pending.
  - reflexivity.
  - intros a b c -> ->. reflexivity.
  - intros [] more. reflexivity.
  - intros [] d c. reflexivity.
Qed.

(** [guarded] never raises, and when the call is over the button is enabled. *)
Lemma guarded_outcome (rest : M (option task)) (st : app) :
  match guarded rest st with
  | (_, Normal (Some _)) => True
  | (st', Normal None) => disabled st' = false
  | (_, Throw _) => False
  end.
Proof.
  unfold guarded, try_catch, start_catch, logStatus. monad.
  destruct (rest st) as [st1 [[t|]|e]]; try exact I; destruct st1; reflexivity.
Qed.

(** A call of [startDownload] that does not suspend leaves the button and
    the suspended calls as they were. *)
Lemma startDownload_outcome (st : app) :
  match startDownload st with
  | (_, Normal (Some _)) => True
  | (st', _) => disabled st' = disabled st /\ pending st' = pending st
  end.
Proof.
  unfold startDownload. monad.
  destruct (truthy (VStr (trim (urlInput st)))); monad; [|destruct st; split; reflexivity].
  unfold validateUrl. monad.
  destruct (pattern_of (currentPlatform st) patterns) as [r|].
  - monad. destruct (regex_test r (trim (urlInput st)) || false); monad;
      [exact I|destruct st; split; reflexivity].
  - destruct (existsb (str_eqb (currentPlatform st)) inherited); monad;
      [split; reflexivity|destruct st; split; reflexivity].
Qed.

Lemma launch_button (st : app) : button_in_step st -> button_in_step (launch st).
Proof.
  intros Hi. unfold launch. pose proof (startDownload_outcome st) as H.
  destruct (startDownload st) as [st1 [[t|]|e]].
  - intros _. destruct st1; simpl. intros E. apply app_eq_nil in E as [_ E]. discriminate.
  - destruct H as [Hd Hp]. unfold button_in_step. rewrite Hd, Hp. exact Hi.
  - destruct H as [Hd Hp]. unfold button_in_step. rewrite Hd, Hp. exact Hi.
Qed.

Lemma resume_button (i : nat) (rest : M (option task)) (st : app) (t0 : task) :
  keeps same_pending rest ->
  pending st !! i = Some t0 ->
  button_in_step (resume i rest st).
Proof.
  intros Hk Hp. unfold resume.
  pose proof (guarded_outcome rest st) as Ho.
  pose proof (guarded_pending rest st Hk) as Hq.
  destruct (guarded rest st) as [st1 [[t|]|e]]; simpl in Hq.
  - intros _. destruct st1; simpl in *. subst.
    intros E. apply (f_equal length) in E. rewrite length_insert in E.
    apply lookup_lt_Some in Hp. simpl in E. lia.
  - intros Hd. destruct st1; simpl in *. congruence.
  - destruct Ho.
Qed.

Ltac frame_pending :=
  unfold same_pending;
  first [ reflexivity
        | intros ? ? ? -> ->; reflexivity
        | intros [] ?; reflexivity
        | intros [] ? ?; reflexivity
        | intros [] ? ? _; reflexivity ].

Lemma step_button (st : app) (ev : event) : button_in_step st -> button_in_step (step st ev).
Proof.
  intros Hi. destruct ev; simpl.
  - destruct (bound st && negb (disabled st)); [apply launch_button|]; exact Hi.
  - destruct (bound st && str_eqb key (js "Enter")); [apply launch_button|]; exact Hi.
  - destruct (bound st); [|exact Hi]. destruct st; exact Hi.
  - destruct st; exact Hi.
  - destruct (pending st !! i) as [[]|] eqn:Hp; try exact Hi.
    eapply resume_button; [|exact Hp].
    apply (keeps_simulate_settled same_pending); frame_pending.
  - destruct (pending st !! i) as [[]|] eqn:Hp; try exact Hi.
    eapply resume_button; [|exact Hp].
    apply (keeps_try same_pending); [frame_pending| |intros e].
    + apply (keeps_poll_settled same_pending); frame_pending.
    + apply (keeps_simulate_catch same_pending); frame_pending.
  - destruct (pending st !! i) as [[]|] eqn:Hp; try exact Hi.
    eapply resume_button; [|exact Hp].
    apply (keeps_try same_pending); [frame_pending| |intros e].
    + apply (keeps_pollDownloadStatus same_pending); frame_pending.
    + apply (keeps_simulate_catch same_pending); frame_pending.
Qed.

Lemma started_enabled (item : option jsstring) : disabled (started item) = false.
Proof.
  unfold started, constructor, init, bindEvents, updateDownloadsList, logStatus. monad.
  destruct (JSON_parse (item_or_default item)) as [v|e]; [|reflexivity].
  simpl. destruct (render_downloads v); reflexivity.
Qed.

(** X8. The button is never left disabled: if it is disabled only while a
    call of [startDownload] is under way, the same is true after any
    events; so in every state that a started page can reach, whatever was
    stored, the button is enabled whenever the page is idle. *)
Theorem X8_button_is_enabled_when_idle :
  (forall (st : app) (evs : list event),
      button_in_step st -> button_in_step (run st evs))
  /\ (forall (item : option jsstring) (evs : list event),
      Idle (run (started item) evs) -> disabled (run (started item) evs) = false).
Proof.
  assert (H : forall st evs, button_in_step st -> button_in_step (run st evs)).
  { intros st evs. revert st. induction evs as [|ev evs IH]; intros st Hb; [exact Hb|].
    rewrite run_cons. apply IH, step_button, Hb. }
  split; [exact H|]. intros item evs Hi.
  assert (Hs : button_in_step (started item)).
  { intros Hd. rewrite started_enabled in Hd. discriminate. }
  specialize (H (started item) evs Hs). unfold button_in_step, Idle in *.
  destruct (disabled (run (started item) evs)); [|reflexivity].
  exfalso. apply H; [reflexivity|exact Hi].
Qed.

Lemma X8_witness :
  button_in_step (started None)
  /\ button_in_step (run (started None)
        [Typed spotify_url; Click; SubmitSettled 0 (Rejected (Rejection (js "Failed to fetch")))])
  /\ disabled (run (started None)
        [Typed spotify_url; Click; SubmitSettled 0 (Rejected (Rejection (js "Failed to fetch")))])
     = false.
Proof.
  assert (H : button_in_step (started None)) by (intros Hd; discriminate Hd).
  split; [exact H|]. split.
  - exact (proj1 X8_button_is_enabled_when_idle (started None) _ H).
  - exact (proj2 X8_button_is_enabled_when_idle None
             [Typed spotify_url; Click;
              SubmitSettled 0 (Rejected (Rejection (js "Failed to fetch")))] eq_refl).
Defined.

(** *** The answer to the submission *)

(** X9. When the submission fails, because the request is rejected or
    because the answer is not ok, no status is ever requested: one error
    line "Error: ..." is logged, the task is gone, the button is enabled
    again, and the history, the storage and the requests made are as they
    were. *)
Theorem X9_failed_submission_ends_the_call (st : app) (i : nat) (url : jsstring)
    (r : settled (bool * value)) :
  pending st !! i = Some (AwaitSubmit url) ->
  submit_failed r = true ->
  step st (SubmitSettled i r) =
  set_pending (delete i (pending st))
    (set_button false (js "Download")
       (set_statusLog (statusLog st ++ [refused (submit_error r)]) st))
  /\ type (refused (submit_error r)) = error.
Proof.
  intros Hp Hf. split; [|reflexivity]. unfold step. rewrite Hp.
  unfold resume, guarded, simulate_settled. monad.
  destruct r as [[ok data]|e].
  - simpl in Hf. apply negb_true_iff in Hf. subst ok. unfold submit_error. monad.
    destruct (get_prop data (js "error")) as [reason|e'].
    + destruct (new_Error reason) as [e'|e']; destruct st; reflexivity.
    + destruct st; reflexivity.
  - destruct st; reflexivity.
Qed.

Lemma X9_witness :
  let st := run (started None) [Typed spotify_url; Click] in
  let answer := Fulfilled (false, VObj [(js "error", VStr (js "Unsupported URL"))]) in
  (pending st !! 0%nat = Some (AwaitSubmit spotify_url) /\ submit_failed answer = true)
  /\ Idle (step st (SubmitSettled 0 answer))
  /\ network (step st (SubmitSettled 0 answer)) = [PostDownload spotify_url (js "spotify")]
  /\ statusLog (step st (SubmitSettled 0 answer))
     = [initialized;
        {| message := [Text (js "Error: "); Text (js "Unsupported URL")]; type := error |}].
Proof.
  intros st answer. split; [split; reflexivity|].
  destruct (X9_failed_submission_ends_the_call st 0 spotify_url answer eq_refl eq_refl)
    as [H _].
  rewrite H. repeat split; reflexivity.
Defined.

(** X10. The answer to the submission is not checked for a job id: when the
    answer is ok and its body is an object without [download_id], the loop
    starts all the same and requests the status of the job "undefined". *)
Theorem X10_missing_job_id_is_polled (st : app) (i : nat) (url : jsstring)
    (props : list (jsstring * value)) :
  pending st !! i = Some (AwaitSubmit url) ->
  own_prop (js "download_id") props = None ->
  step st (SubmitSettled i (Fulfilled (true, VObj props))) =
  set_pending (<[i := AwaitStatus VUndefined url]> (pending st))
    (set_network (network st ++ [GetStatus (Shown VUndefined)]) st).
Proof.
  intros Hp Hd.
  apply (step_submitted st i url (VObj props) VUndefined Hp); [|reflexivity].
  simpl. rewrite Hd. reflexivity.
Qed.

Lemma X10_witness :
  let st := run (started None) [Typed spotify_url; Click] in
  (pending st !! 0%nat = Some (AwaitSubmit spotify_url)
   /\ own_prop (js "download_id") [(js "id", VStr (js "1"))] = None)
  /\ pending (step st (SubmitSettled 0 (Fulfilled (true, VObj [(js "id", VStr (js "1"))]))))
     = [AwaitStatus VUndefined spotify_url]
  /\ network (step st (SubmitSettled 0 (Fulfilled (true, VObj [(js "id", VStr (js "1"))]))))
     = [PostDownload spotify_url (js "spotify"); GetStatus (Shown VUndefined)].
Proof.
  intros st. split; [split; reflexivity|].
  rewrite (X10_missing_job_id_is_polled st 0 spotify_url [(js "id", VStr (js "1"))]
             eq_refl eq_refl).
  split; reflexivity.
Defined.

(** *** What [validateUrl] accepts *)

(** X11. Under a platform that the table of [validateUrl] does not list,
    every submission of a URL that is not empty is refused with the error
    "Invalid URL for selected platform"; unless the platform is a name that
    object literals inherit, such as "constructor": then [validateUrl]
    raises, [startDownload] ends there, and nothing at all happens, no line
    is logged. *)
Theorem X11_platform_without_pattern (st : app) (ev : event) :
  submits st ev = true ->
  truthy (VStr (trim (urlInput st))) = true ->
  pattern_of (currentPlatform st) patterns = None ->
  (existsb (str_eqb (currentPlatform st)) inherited = false ->
     step st ev = set_statusLog (statusLog st ++ [invalid]) st)
  /\ (existsb (str_eqb (currentPlatform st)) inherited = true -> step st ev = st).
Proof.
  intros Hs Ht Hn. rewrite (step_submits st ev Hs).
  unfold launch, startDownload. monad. rewrite Ht. monad.
  unfold validateUrl. monad. rewrite Hn.
  split; intros ->; monad; reflexivity.
Qed.

Lemma X11_witness :
  let unknown := run (started None) [PlatformClick (js "soundcloud"); Typed spotify_url] in
  let odd := run (started None) [PlatformClick (js "constructor"); Typed spotify_url] in
  (submits unknown Click = true /\ truthy (VStr (trim (urlInput unknown))) = true
   /\ pattern_of (currentPlatform unknown) patterns = None)
  /\ statusLog (step unknown Click) = [initialized; invalid]
  /\ step odd Click = odd.
Proof.
  intros unknown odd. split; [repeat split; reflexivity|]. split.
  - rewrite (proj1 (X11_platform_without_pattern unknown Click eq_refl eq_refl eq_refl) eq_refl).
    reflexivity.
  - exact (proj2 (X11_platform_without_pattern odd Click eq_refl eq_refl eq_refl) eq_refl).
Defined.

Lemma strip_prefix_app (p s x : jsstring) : strip_prefix p s = Some x <-> s = p ++ x.
Proof.
  revert s. induction p as [|c p IH]; intros s; simpl.
  - split; congruence.
  - destruct s as [|d s]; [split; discriminate|].
    unfold unit_eqb. destruct (N.eqb_spec c d) as [->|Hne].
    + rewrite IH. split; [intros ->|intros [= ->]]; reflexivity.
    + split; [discriminate|]. intros [= -> _]. contradiction.
Qed.

Lemma residuals_fragments (r : regex) (s x : jsstring) :
  In x (residuals r s) <-> exists w, In w (fragments r) /\ s = w ++ x.
Proof.
  revert s x. induction r as [p|r1 IH1 r2 IH2|r1 IH1 r2 IH2]; intros s x; simpl.
  - destruct (strip_prefix p s) as [y|] eqn:E.
    + apply strip_prefix_app in E. subst s. split.
      * intros [<-|[]]. exists p. split; [left; reflexivity|reflexivity].
      * intros (w & [<-|[]] & Hw). apply app_inv_head in Hw. left. exact Hw.
    + split; [intros []|]. intros (w & [<-|[]] & Hw).
      apply strip_prefix_app in Hw. congruence.
  - rewrite in_flat_map. split.
    + intros (y & Hy & Hx). apply IH1 in Hy as (w1 & Hw1 & ->).
      apply IH2 in Hx as (w2 & Hw2 & ->). exists (w1 ++ w2). split.
      * apply in_flat_map. exists w1. split; [exact Hw1|]. apply in_map. exact Hw2.
      * apply app_assoc.
    + intros (w & Hw & ->). apply in_flat_map in Hw as (w1 & Hw1 & Hw).
      apply in_map_iff in Hw as (w2 & <- & Hw2). exists (w2 ++ x). split.
      * apply IH1. exists w1. split; [exact Hw1|]. symmetry. apply app_assoc.
      * apply IH2. exists w2. auto.
  - rewrite in_app_iff, IH1, IH2. split.
    + intros [(w & Hw & ->)|(w & Hw & ->)]; exists w; rewrite in_app_iff; auto.
    + intros (w & Hw & ->). apply in_app_iff in Hw as [Hw|Hw]; [left|right]; eauto.
Qed.

Lemma matches_at_fragments (r : regex) (s : jsstring) :
  matches_at r s = true <-> exists w x, In w (fragments r) /\ s = w ++ x.
Proof.
  unfold matches_at. split.
  - destruct (residuals r s) as [|x l] eqn:E; [discriminate|]. intros _.
    assert (H : In x (residuals r s)) by (rewrite E; left; reflexivity).
    apply residuals_fragments in H as (w & Hw & ->). eauto.
  - intros (w & x & Hw & ->).
    assert (H : In x (residuals r (w ++ x))) by (apply residuals_fragments; eauto).
    destruct (residuals r (w ++ x)); [destruct H|reflexivity].
Qed.

Lemma regex_test_fragments (r : regex) (s : jsstring) :
  regex_test r s = true <-> exists w, In w (fragments r) /\ contains s w.
Proof.
  induction s as [|c s IH].
  - simpl. rewrite orb_false_r, matches_at_fragments. split.
    + intros (w & x & Hw & E). exists w. split; [exact Hw|]. exists [], x. exact E.
    + intros (w & Hw & a & b & E). exists w, b. split; [exact Hw|].
      destruct a; [exact E|discriminate].
  - simpl. rewrite orb_true_iff, matches_at_fragments, IH. split.
    + intros [(w & x & Hw & E)|(w & Hw & a & b & E)].
      * exists w. split; [exact Hw|]. exists [], x. exact E.
      * exists w. split; [exact Hw|]. exists (c :: a), b. rewrite E. reflexivity.
    + intros (w & Hw & a & b & E). destruct a as [|d a].
      * left. exists w, b. auto.
      * right. injection E as -> ->. exists w. split; [exact Hw|]. exists a, b. reflexivity.
Qed.

(** X12. Validation is a search for a fragment: under a platform of the
    table, [validateUrl] accepts a URL exactly when the URL holds, anywhere,
    one of the strings that the pattern of the platform matches (for
    spotify: "spotify.com/track", "spotify.com/album", "spotify.com/playlist").
    So a URL that holds an accepted URL anywhere is accepted too. *)
Theorem X12_validation_searches_a_fragment (st : app) (r : regex) (url : jsstring) :
  pattern_of (currentPlatform st) patterns = Some r ->
  (validateUrl url st = (st, Normal true)
     <-> exists w, In w (fragments r) /\ contains url w)
  /\ (validateUrl url st = (st, Normal true) ->
      forall a b, validateUrl (a ++ url ++ b) st = (st, Normal true))
  /\ (currentPlatform st = js "spotify" ->
      fragments r = [js "spotify.com/track"; js "spotify.com/album"; js "spotify.com/playlist"]).
Proof.
  intros Hr.
  assert (E : forall u, validateUrl u st = (st, Normal true) <-> regex_test r u = true).
  { intros u. unfold validateUrl. monad. rewrite Hr. rewrite orb_false_r. split.
    - intros [= ->]. reflexivity.
    - intros ->. reflexivity. }
  split; [|split].
  - rewrite E. apply regex_test_fragments.
  - intros H a b. apply E. apply E in H. apply regex_test_fragments in H as (w & Hw & c & d & ->).
    apply regex_test_fragments. exists w. split; [exact Hw|].
    exists (a ++ c), (d ++ b). rewrite <- !app_assoc. reflexivity.
  - intros Hp. rewrite Hp in Hr. injection Hr as <-. reflexivity.
Qed.

Lemma X12_witness :
  let st := started None in
  pattern_of (currentPlatform st) patterns
  = Some (Seq (Lit (js "spotify.com/")) (Alt (Lit (js "track")) (Alt (Lit (js "album")) (Lit (js "playlist")))))
  /\ validateUrl spotify_url st = (st, Normal true)
  /\ validateUrl (js "https://example.org/?next=" ++ spotify_url ++ js "#x") st = (st, Normal true).
Proof.
  intros st. split; [reflexivity|]. split; [reflexivity|].
  exact (proj1 (proj2 (X12_validation_searches_a_fragment st _ spotify_url eq_refl)) eq_refl
           (js "https://example.org/?next=") (js "#x")).
Defined.

(** *** The answer 'completed' at the edges *)

Ltac frame_eq :=
  first [ reflexivity
        | intros ? ? ? -> ->; reflexivity
        | intros [] ?; reflexivity
        | intros [] ? ?; reflexivity
        | intros [] ? ? _; reflexivity ].

Lemma status_keeps_network (st : app) (i : nat) (r : settled value) (now : jsstring) :
  network (step st (StatusSettled i r now)) = network st.
Proof.
  simpl. destruct (pending st !! i) as [[]|]; try reflexivity.
  apply (resume_keeps (fun a b => network b = network a)); try frame_eq.
  apply keeps_try; [frame_eq| |intros e].
  - apply keeps_poll_settled; frame_eq.
  - apply keeps_simulate_catch; frame_eq.
Qed.

(** X13. The record of a download carries the URL that was submitted, the
    trimmed input at the click, whatever is typed afterwards, but the
    platform that is selected when the answer 'completed' arrives, which
    need not be the platform that was sent to the server with the
    submission. *)
Theorem X13_record_has_submitted_url_and_latest_platform (st : app) (url : jsstring)
    (id status : value) (now : jsstring) (l : list value) (p typed : jsstring) :
  submits st Click = true ->
  Idle st ->
  trim (urlInput st) = url ->
  truthy (VStr url) = true ->
  validateUrl url st = (st, Normal true) ->
  unprintable id = false ->
  completed status = true ->
  downloads st = VArr l ->
  let st' := run st [ Click; SubmitSettled 0 (Fulfilled (true, job id));
                      PlatformClick p; Typed typed;
                      StatusSettled 0 (Fulfilled status) now ] in
  exists record,
    downloads st' = VArr (take 10 (record :: l))
    /\ get_prop record (js "url") = Normal (VStr url)
    /\ get_prop record (js "platform") = Normal (VStr p)
    /\ network st' = network st ++ [PostDownload url (currentPlatform st); GetStatus (shown id)].
Proof.
  intros Hs Hi Hu Ht Hv Hid Hc Hd st'.
  destruct (completed_object status Hc) as [props ->].
  eexists. subst st'.
  rewrite run_cons, (step_submits st Click Hs), (launch_accepts st url Hu Ht Hv).
  unfold Idle in Hi. simpl in Hs. apply andb_prop in Hs as [Hb _].
  destruct st as [cp dl bd ui ds ca sl ps nw pd]; simpl in Hi, Hd, Hb. subst pd dl bd.
  rewrite run_cons.
  erewrite (step_submitted _ 0 url (job id) id) by first [exact Hid | reflexivity].
  rewrite run_cons.
  change (step ?s (PlatformClick p)) with (set_currentPlatform p s).
  rewrite run_cons.
  change (step ?s (Typed typed)) with (set_urlInput typed s).
  rewrite run_cons, run_nil.
  split; [|split; [|split]].
  - apply (step_completed_downloads _ 0 id url (VObj props) now l); try reflexivity. exact Hc.
  - reflexivity.
  - reflexivity.
  - rewrite status_keeps_network. fields. rewrite <- app_assoc. reflexivity.
Qed.

Lemma X13_witness :
  let st := step (started None) (Typed (js "  https://open.spotify.com/track/abc ")) in
  let st' := run st [ Click; SubmitSettled 0 (Fulfilled (true, job (VStr (js "1"))));
                      PlatformClick (js "tiktok"); Typed (js "something else");
                      StatusSettled 0 (Fulfilled song) (js "10:00:03") ] in
  (submits st Click = true /\ Idle st /\ trim (urlInput st) = spotify_url
   /\ validateUrl spotify_url st = (st, Normal true) /\ completed song = true
   /\ downloads st = VArr [])
  /\ exists record,
      downloads st' = VArr [record]
      /\ get_prop record (js "url") = Normal (VStr spotify_url)
      /\ get_prop record (js "platform") = Normal (VStr (js "tiktok"))
      /\ network st' = [PostDownload spotify_url (js "spotify"); GetStatus (Text (js "1"))].
Proof.
  intros st st'. split; [repeat split; reflexivity|].
  destruct (X13_record_has_submitted_url_and_latest_platform st spotify_url (VStr (js "1")) song
              (js "10:00:03") [] (js "tiktok") (js "something else")
              eq_refl eq_refl eq_refl eq_refl eq_refl eq_refl eq_refl eq_refl)
    as (record & Hd & Hu & Hp & Hn).
  exists record. repeat split; assumption.
Defined.

(** X14. When [this.downloads] is not an array (the stored text parsed to
    something else), a download that completes is not recorded: after the
    two success lines [addDownload] raises a TypeError, the line "Status
    check failed: ..." follows, the history and the storage stay as they
    were, and the input is not cleared. *)
Theorem X14_history_that_is_no_array_records_nothing (st : app) (i : nat) (id : value)
    (url : jsstring) (status : value) (now : jsstring) :
  pending st !! i = Some (AwaitStatus id url) ->
  completed status = true ->
  (forall l, downloads st <> VArr l) ->
  step st (StatusSettled i (Fulfilled status) now) =
  set_pending (delete i (pending st))
    (set_button false (js "Download")
       (set_statusLog (statusLog st ++ [completed1; completed2; failed (Engine TypeError)]) st)).
Proof.
  intros Hp Hc Hn. unfold step. rewrite Hp.
  destruct (completed_object status Hc) as [props ->].
  unfold completed in Hc.
  destruct (get_prop (VObj props) (js "status")) as [state|] eqn:Hs; [|discriminate].
  unfold resume, guarded, poll_settled. monad.
  rewrite Hs, Hc. unfold logStatus, addDownload. monad.
  destruct st as [cp dl bd ui ds ca sl ps nw pd]; simpl in Hn |- *.
  destruct dl;
    try (unfold poll_catch, logStatus; monad; fields; rewrite <- !app_assoc; reflexivity).
  exfalso. eapply Hn. reflexivity.
Qed.

Lemma X14_witness :
  let st := run (started (Some [34; 34]))
              [Typed spotify_url; Click; SubmitSettled 0 (Fulfilled (true, job (VStr (js "1"))))] in
  (downloads st = VStr [] /\ pending st !! 0%nat = Some (AwaitStatus (VStr (js "1")) spotify_url)
   /\ completed song = true)
  /\ downloads (step st (StatusSettled 0 (Fulfilled song) (js "10:00:03"))) = VStr []
  /\ persisted (step st (StatusSettled 0 (Fulfilled song) (js "10:00:03"))) = None
  /\ urlInput (step st (StatusSettled 0 (Fulfilled song) (js "10:00:03"))) = spotify_url
  /\ statusLog (step st (StatusSettled 0 (Fulfilled song) (js "10:00:03")))
     = [initialized; completed1; completed2; failed (Engine TypeError)].
Proof.
  intros st. split; [repeat split; reflexivity|].
  rewrite (X14_history_that_is_no_array_records_nothing st 0 (VStr (js "1")) spotify_url song
             (js "10:00:03") eq_refl eq_refl ltac:(discriminate)).
  repeat split; reflexivity.
Defined.

(** X15. When rendering the list raises after the commit (say the files of
    the status are a string and not a sequence), the record is in the
    history and in the storage all the same; the error line "Status check
    failed: ..." follows the two success lines and the input is not
    cleared. *)
Theorem X15_record_is_kept_when_rendering_raises (st : app) (i : nat) (id : value)
    (url : jsstring) (status : value) (now : jsstring) (l : list value) (record : value)
    (e : exn) :
  pending st !! i = Some (AwaitStatus id url) ->
  completed status = true ->
  downloads st = VArr l ->
  downloadData (currentPlatform st) url status now = Normal record ->
  render_downloads (VArr (take 10 (record :: l))) = Throw e ->
  step st (StatusSettled i (Fulfilled status) now) =
  set_pending (delete i (pending st))
    (set_button false (js "Download")
       (set_statusLog (statusLog st ++ [completed1; completed2; failed e])
          (set_persisted (Some (VArr (take 10 (record :: l))))
             (set_downloads (VArr (take 10 (record :: l))) st)))).
Proof.
  intros Hp Hc Hd Hr He. unfold step. rewrite Hp.
  unfold completed in Hc.
  destruct (get_prop status (js "status")) as [state|] eqn:Hs; [|discriminate].
  unfold resume, guarded, poll_settled. monad.
  rewrite Hs, Hc. unfold logStatus, addDownload, updateDownloadsList. monad.
  destruct st as [cp dl bd ui ds ca sl ps nw pd]; simpl in *. rewrite Hr. subst dl.
  pose proof (kept_take record l) as E. simpl in E. simpl. rewrite E.
  simpl in He. rewrite He. unfold poll_catch, logStatus. monad. fields.
  rewrite <- !app_assoc. reflexivity.
Qed.

Lemma X15_witness :
  let st := run (started None)
              [Typed spotify_url; Click; SubmitSettled 0 (Fulfilled (true, job (VStr (js "1"))))] in
  let status := VObj [(js "status", VStr (js "completed")); (js "files", VStr (js "song.mp3"))] in
  let st' := step st (StatusSettled 0 (Fulfilled status) (js "10:00:03")) in
  (pending st !! 0%nat = Some (AwaitStatus (VStr (js "1")) spotify_url)
   /\ completed status = true /\ downloads st = VArr [])
  /\ (exists record, downloads st' = VArr [record] /\ persisted st' = Some (VArr [record])
        /\ get_prop record (js "files") = Normal (VStr (js "song.mp3")))
  /\ urlInput st' = spotify_url
  /\ statusLog st' = [initialized; completed1; completed2; failed (Engine TypeError)].
Proof.
  intros st status st'. split; [repeat split; reflexivity|].
  subst st'.
  erewrite (X15_record_is_kept_when_rendering_raises st 0 (VStr (js "1")) spotify_url status
              (js "10:00:03") [] _ (Engine TypeError)) by reflexivity.
  split; [eexists; repeat split; reflexivity|]. split; reflexivity.
Defined.

(** X16. Only the answer 'completed' touches the history: whatever else
    answers the request for the status (a rejection, a status that cannot
    be read, 'error', 'processing', anything), the history, the storage and
    the input stay as they were and exactly one line is logged. *)
Theorem X16_other_answers_leave_the_history (st : app) (i : nat) (id : value)
    (url : jsstring) (r : settled value) (now : jsstring) :
  pending st !! i = Some (AwaitStatus id url) ->
  (forall status, r = Fulfilled status -> completed status = false) ->
  downloads (step st (StatusSettled i r now)) = downloads st
  /\ persisted (step st (StatusSettled i r now)) = persisted st
  /\ urlInput (step st (StatusSettled i r now)) = urlInput st
  /\ exists line, statusLog (step st (StatusSettled i r now)) = statusLog st ++ [line].
Proof.
  intros Hp Hn. unfold step. rewrite Hp.
  unfold resume, guarded, poll_settled, poll_catch, simulate_catch, start_catch, logStatus.
  monad. destruct r as [status|e]; monad.
  - specialize (Hn status eq_refl). unfold completed in Hn.
    destruct (get_prop status (js "status")) as [state|e]; monad.
    + rewrite Hn. destruct (is_str state (js "error")); monad.
      * destruct (get_prop status (js "error")) as [reason|e]; monad.
        -- destruct (show reason); monad; destruct st; fields; repeat split; eauto.
        -- destruct st; fields; repeat split; eauto.
      * destruct (show state); monad; destruct st; fields; repeat split; eauto.
    + destruct st; fields; repeat split; eauto.
  - destruct st; fields; repeat split; eauto.
Qed.

Lemma X16_witness :
  let st := run (started None)
              [Typed spotify_url; Click; SubmitSettled 0 (Fulfilled (true, job (VStr (js "1"))))] in
  pending st !! 0%nat = Some (AwaitStatus (VStr (js "1")) spotify_url)
  /\ downloads (step st (StatusSettled 0 (Fulfilled VNull) (js "10:00:01"))) = VArr []
  /\ exists line,
      statusLog (step st (StatusSettled 0 (Fulfilled VNull) (js "10:00:01")))
      = [initialized] ++ [line].
Proof.
  intros st. split; [reflexivity|].
  assert (Hn : forall status, Fulfilled VNull = Fulfilled status -> completed status = false)
    by (intros status [= <-]; reflexivity).
  destruct (X16_other_answers_leave_the_history st 0 (VStr (js "1")) spotify_url
              (Fulfilled VNull) (js "10:00:01") eq_refl Hn) as (Hd & _ & _ & Hl).
  split; [exact Hd|exact Hl].
Defined.

(** *** Start-up on a stored value that cannot be rendered *)

(** X17. [init] installs the listeners before it renders the list. So when
    the stored text parses but rendering the value raises (the text [null],
    say), the constructor raises after the listeners are installed: the
    page reacts to clicks and keys, with that value as its history, but
    the line "Media Downloader initialized" is never logged. *)
Theorem X17_start_up_raises_after_binding (page : app) (s : jsstring) (v : value) (e : exn) :
  s <> [] ->
  JSON_parse s = Normal v ->
  render_downloads v = Throw e ->
  constructor (Some s) page =
  (set_bound true (set_downloads v (set_currentPlatform (js "spotify") page)), Throw e).
Proof.
  intros Hs Hv He. unfold constructor, init, bindEvents, updateDownloadsList. monad.
  rewrite (item_present s Hs), Hv. destruct page; simpl. rewrite He. reflexivity.
Qed.

Lemma X17_witness :
  (js "null" <> [] /\ JSON_parse (js "null") = Normal VNull
   /\ render_downloads VNull = Throw (Engine TypeError))
  /\ bound (started (Some (js "null"))) = true
  /\ statusLog (started (Some (js "null"))) = []
  /\ submits (started (Some (js "null"))) Click = true.
Proof.
  split; [split; [discriminate|split; reflexivity]|].
  unfold started.
  rewrite (X17_start_up_raises_after_binding blank_page (js "null") VNull (Engine TypeError)
             ltac:(discriminate) eq_refl eq_refl).
  repeat split; reflexivity.
Defined.

(** X18. A file name can be read back from its encoding, so distinct file
    names never share a link: for strings of JavaScript, two file names that
    get the same link under a platform are the same name. *)
Theorem X18_file_links_tell_names_apart :
  (forall file encoded : jsstring,
      is_string file -> encodeURIComponent file = Normal encoded ->
      read_back encoded = Some file)
  /\ (forall platform file1 file2 link : jsstring,
      is_string file1 -> is_string file2 ->
      fileLink platform file1 = Normal link -> fileLink platform file2 = Normal link ->
      file1 = file2).
Proof.
  assert (H : forall file encoded, is_string file -> encodeURIComponent file = Normal encoded ->
                                   read_back encoded = Some file).
  { intros file encoded. apply (read_back_encode_bounded (length file)). lia. }
  split; [exact H|].
  intros platform file1 file2 link H1 H2 L1 L2. unfold fileLink in L1, L2.
  destruct (encodeURIComponent file1) as [e1|] eqn:E1; [|discriminate].
  destruct (encodeURIComponent file2) as [e2|] eqn:E2; [|discriminate].
  cbv [mbind completion_mbind completion_bind] in L1, L2.
  rewrite <- L1 in L2. apply (f_equal (fun c => match c with Normal a => a | Throw _ => [] end)) in L2.
  cbv beta iota in L2. do 4 apply app_inv_head in L2. subst e2.
  apply H in E1, E2; trivial. congruence.
Qed.

Lemma X18_witness :
  is_string (js "a b/c.mp3")
  /\ encodeURIComponent (js "a b/c.mp3") = Normal (js "a%20b%2Fc.mp3")
  /\ read_back (js "a%20b%2Fc.mp3") = Some (js "a b/c.mp3")
  /\ read_back [37; 70; 48; 37; 57; 70; 37; 57; 56; 37; 56; 48] = Some [55357; 56832].
Proof.
  assert (H1 : is_string (js "a b/c.mp3")) by (repeat constructor).
  assert (H2 : is_string [55357; 56832]) by (repeat constructor).
  split; [exact H1|]. split; [reflexivity|]. split.
  - exact (proj1 X18_file_links_tell_names_apart _ _ H1 eq_refl).
  - exact (proj1 X18_file_links_tell_names_apart [55357; 56832] _ H2 eq_refl).
Defined.

(** *** The age of a record *)

(** X19. [formatTime] shows minutes only from 1 to 59 and hours only from
    1 to 23, each the whole number of minutes or hours that passed; a record
    less than a minute old, or dated in the future, is "Just now"; a record
    a day old or more, or one whose timestamp is no date, is shown by its
    date. *)
Theorem X19_ages_are_within_bounds (now : Z) (date : option Z) :
  match formatTime_answer now date with
  | JustNow => exists t, date = Some t /\ (now - t < 60000)%Z
  | MinutesAgo n =>
      (1 <= n <= 59)%Z
      /\ exists t, date = Some t /\ (60000 * n <= now - t < 60000 * (n + 1))%Z
  | HoursAgo n =>
      (1 <= n <= 23)%Z
      /\ exists t, date = Some t /\ (3600000 * n <= now - t < 3600000 * (n + 1))%Z
  | OnDate d =>
      d = date /\ (date = None \/ exists t, date = Some t /\ (86400000 <= now - t)%Z)
  end.
Proof.
  unfold formatTime_answer. destruct date as [t|]; [|split; [reflexivity|left; reflexivity]].
  cbv zeta.
  destruct (Z.ltb_spec (now - t) 60000); [eauto|].
  destruct (Z.ltb_spec (now - t) 3600000).
  { split; [|exists t; split; [reflexivity|]];
      zify; Z.to_euclidean_division_equations; lia. }
  destruct (Z.ltb_spec (now - t) 86400000).
  { split; [|exists t; split; [reflexivity|]];
      zify; Z.to_euclidean_division_equations; lia. }
  split; [reflexivity|right; eauto].
Qed.

(** *** The placeholder of a platform *)

(** X20. The two tables of the script agree: a platform has a placeholder
    exactly when it has a pattern, and the placeholder that [selectPlatform]
    shows for a platform is itself a URL that [validateUrl] accepts once
    that platform is selected. *)
Theorem X20_placeholders_pass_validation (st : app) (platform : jsstring) :
  (placeholder_of platform placeholders = None <-> pattern_of platform patterns = None)
  /\ (forall hint, placeholder_of platform placeholders = Some hint ->
        validateUrl hint (fst (selectPlatform platform st))
        = (fst (selectPlatform platform st), Normal true)).
Proof.
  unfold validateUrl, selectPlatform. monad.
  change (currentPlatform (fst (set_currentPlatform platform st, Normal tt))) with platform.
  unfold placeholders, patterns, placeholder_of, pattern_of.
  destruct (str_eqb platform (js "spotify"));
    [split; [split; discriminate|intros hint [= <-]; reflexivity]|].
  destruct (str_eqb platform (js "youtube-audio"));
    [split; [split; discriminate|intros hint [= <-]; reflexivity]|].
  destruct (str_eqb platform (js "youtube-video"));
    [split; [split; discriminate|intros hint [= <-]; reflexivity]|].
  destruct (str_eqb platform (js "tiktok"));
    [split; [split; discriminate|intros hint [= <-]; reflexivity]|].
  destruct (str_eqb platform (js "twitter"));
    [split; [split; discriminate|intros hint [= <-]; reflexivity]|].
  split; [split; reflexivity|discriminate].
Qed.

Lemma X20_witness :
  placeholder_of (js "tiktok") placeholders = Some (js "https://www.tiktok.com/@user/video/...")
  /\ validateUrl (js "https://www.tiktok.com/@user/video/...")
       (fst (selectPlatform (js "tiktok") (started None)))
     = (fst (selectPlatform (js "tiktok") (started None)), Normal true).
Proof.
  split; [reflexivity|].
  exact (proj2 (X20_placeholders_pass_validation (started None) (js "tiktok")) _ eq_refl).
Defined.

(** *** The URL that is submitted *)

Lemma trim_start_split (s : jsstring) :
  exists ws, s = ws ++ trim_start s /\ forallb is_white ws = true
             /\ (forall c, hd_error (trim_start s) = Some c -> is_white c = false).
Proof.
  induction s as [|c s (ws & E & Hw & Hh)]; simpl.
  - exists []. repeat split. discriminate.
  - destruct (is_white c) eqn:Hc.
    + exists (c :: ws). split; [simpl; congruence|]. split; [simpl; rewrite Hc; exact Hw|exact Hh].
    + exists []. split; [reflexivity|]. split; [reflexivity|]. simpl. congruence.
Qed.

Lemma forallb_rev {A} (f : A -> bool) (l : list A) :
  forallb f l = true -> forallb f (rev l) = true.
Proof.
  rewrite !forallb_forall. intros H x Hx. apply H, in_rev. exact Hx.
Qed.

Lemma trim_split (s : jsstring) :
  exists before after,
    s = before ++ trim s ++ after
    /\ forallb is_white before = true /\ forallb is_white after = true
    /\ (forall c, hd_error (trim s) = Some c -> is_white c = false)
    /\ (forall c, hd_error (rev (trim s)) = Some c -> is_white c = false).
Proof.
  destruct (trim_start_split s) as (before & E & Hb & Hh).
  destruct (trim_start_split (rev (trim_start s))) as (ws & E' & Hw & Hl).
  unfold trim, trim_end. exists before, (rev ws).
  assert (Et : trim_start s = rev (trim_start (rev (trim_start s))) ++ rev ws).
  { rewrite <- rev_app_distr, <- E', rev_involutive. reflexivity. }
  split; [rewrite <- Et; exact E|]. split; [exact Hb|]. split; [apply forallb_rev, Hw|].
  split.
  - intros c Hc. apply Hh. rewrite Et.
    destruct (rev (trim_start (rev (trim_start s)))); [discriminate|exact Hc].
  - rewrite rev_involutive. exact Hl.
Qed.

(** X21. The URL that an accepted submission sends to the server is the
    input without the white space around it: the input is some white space,
    the URL, some white space, and the URL neither starts nor ends with
    white space. It is sent with the platform selected at that moment. *)
Theorem X21_submitted_url_is_the_trimmed_input (st : app) (ev : event) (url : jsstring) :
  submits st ev = true ->
  trim (urlInput st) = url ->
  truthy (VStr url) = true ->
  validateUrl url st = (st, Normal true) ->
  network (step st ev) = network st ++ [PostDownload url (currentPlatform st)]
  /\ pending (step st ev) = pending st ++ [AwaitSubmit url]
  /\ exists before after,
      urlInput st = before ++ url ++ after
      /\ forallb is_white before = true /\ forallb is_white after = true
      /\ (forall c, hd_error url = Some c -> is_white c = false)
      /\ (forall c, hd_error (rev url) = Some c -> is_white c = false).
Proof.
  intros Hs Hu Ht Hv.
  rewrite (step_submits st ev Hs), (launch_accepts st url Hu Ht Hv).
  split; [destruct st; reflexivity|]. split; [destruct st; reflexivity|].
  subst url. apply trim_split.
Qed.

Lemma X21_witness :
  let st := step (started None) (Typed (js "  https://open.spotify.com/track/abc ")) in
  (submits st Click = true /\ trim (urlInput st) = spotify_url
   /\ validateUrl spotify_url st = (st, Normal true))
  /\ network (step st Click) = [PostDownload spotify_url (js "spotify")].
Proof.
  intros st. split; [repeat split; reflexivity|].
  exact (proj1 (X21_submitted_url_is_the_trimmed_input st Click spotify_url
                  eq_refl eq_refl eq_refl eq_refl)).
Defined.

(** *** Answers that follow the interface *)

Lemma for_each_all {A} (body : A -> completion unit) (l : list A) :
  (forall a, In a l -> body a = Normal tt) -> for_each body l = Normal tt.
Proof.
  induction l as [|a l IH]; intros H; [reflexivity|].
  simpl. rewrite (H a (or_introl eq_refl)). simpl. apply IH. intros b Hb. apply H. right. exact Hb.
Qed.

Lemma file_name_encodes (v : value) :
  file_name v = true -> encode_value v = Normal tt.
Proof.
  destruct v as [| | | |s| |]; try discriminate. simpl. intros Hw.
  unfold encode_value. simpl.
  pose proof (encode_well_formed_bounded (length s) s ltac:(lia)) as H. rewrite Hw in H.
  destruct H as [out ->]. reflexivity.
Qed.

Lemma built_renders (T O : value) (fl : list value) (p url now : jsstring) :
  unprintable T = false ->
  forallb file_name fl = true ->
  count_files (built T O (VArr fl) p url now) = Normal tt
  /\ render_item (built T O (VArr fl) p url now) = Normal tt.
Proof.
  intros HT Hfl. split.
  - unfold count_files.
    change (get_prop (built T O (VArr fl) p url now) (js "files")) with (Normal (VArr fl)).
    cbv [mbind completion_mbind completion_bind nullish].
    change (get_prop (VArr fl) (js "length")) with (Normal (VNum (of_length (length fl)))).
    cbv iota beta. unfold js_or. destruct (truthy (VNum (of_length (length fl)))); reflexivity.
  - unfold render_item.
    change (get_prop (built T O (VArr fl) p url now) (js "title")) with (Normal T).
    change (get_prop (built T O (VArr fl) p url now) (js "platform")) with (Normal (VStr p)).
    change (get_prop (built T O (VArr fl) p url now) (js "files")) with (Normal (VArr fl)).
    change (get_prop (built T O (VArr fl) p url now) (js "timestamp")) with (Normal (VStr now)).
    cbv [mbind completion_mbind completion_bind]. rewrite (show_printable T HT).
    cbv [show unprintable truthy formatTime]. cbv iota beta.
    assert (Hl : renderDownloadLinks (built T O (VArr fl) p url now) = Normal tt).
    { unfold renderDownloadLinks.
      change (get_prop (built T O (VArr fl) p url now) (js "files")) with (Normal (VArr fl)).
      cbv [mbind completion_mbind completion_bind truthy negb]. 
      change (get_prop (VArr fl) (js "length")) with (Normal (VNum (of_length (length fl)))).
      cbv iota beta. destruct (is_num_zero (VNum (of_length (length fl)))); [reflexivity|].
      apply for_each_all. intros file Hin.
      change (get_prop (built T O (VArr fl) p url now) (js "platform")) with (Normal (VStr p)).
      cbv [show unprintable]. cbv iota beta.
      rewrite forallb_forall in Hfl. specialize (Hfl file Hin).
      rewrite (file_name_encodes file Hfl).
      destruct file; try discriminate. reflexivity. }
    rewrite Hl. reflexivity.
Qed.

(** X22. For answers that follow the interface of the server, rendering
    never raises: when the list was rendered and a status says 'completed'
    with a title that is absent or a string and files that are absent or a
    sequence of file names, the record is committed, the new list renders,
    exactly the two success lines are logged, the input is cleared and the
    task is over. *)
Theorem X22_conforming_answer_is_recorded (st : app) (i : nat) (id : value) (url : jsstring)
    (status : value) (now : jsstring) (l : list value) :
  pending st !! i = Some (AwaitStatus id url) ->
  completed status = true ->
  conforming status = true ->
  downloads st = VArr l ->
  render_downloads (VArr l) = Normal tt ->
  exists record,
    downloadData (currentPlatform st) url status now = Normal record
    /\ render_downloads (VArr (take 10 (record :: l))) = Normal tt
    /\ step st (StatusSettled i (Fulfilled status) now) =
       set_pending (delete i (pending st))
         (set_button false (js "Download")
           (set_urlInput []
             (set_persisted (Some (VArr (take 10 (record :: l))))
               (set_downloads (VArr (take 10 (record :: l)))
                 (set_statusLog (statusLog st ++ [completed1; completed2]) st))))).
Proof.
  intros Hp Hc Hf Hd Hr. destruct (completed_object status Hc) as [props ->].
  unfold conforming in Hf. simpl in Hf. apply andb_prop in Hf as [Ht Hfl].
  set (t := default VUndefined (own_prop (js "title") props)) in *.
  set (f := default VUndefined (own_prop (js "files") props)) in *.
  set (o := default VUndefined (own_prop (js "output_path") props)).
  assert (HT : unprintable (js_or t (VStr (js "Downloaded Media"))) = false).
  { unfold js_or. destruct t; try discriminate; destruct (truthy _); reflexivity. }
  assert (HF : exists fl, js_or f (VArr []) = VArr fl /\ forallb file_name fl = true).
  { destruct f as [| | | | |fl|]; try discriminate; [exists []|exists fl]; split; auto. }
  destruct HF as (fl & EF & Hfn).
  exists (built (js_or t (VStr (js "Downloaded Media"))) o (VArr fl) (currentPlatform st) url now).
  assert (Hrec : downloadData (currentPlatform st) url (VObj props) now
                 = Normal (built (js_or t (VStr (js "Downloaded Media"))) o (VArr fl)
                             (currentPlatform st) url now)).
  { rewrite <- EF. reflexivity. }
  destruct (built_renders (js_or t (VStr (js "Downloaded Media"))) o fl
              (currentPlatform st) url now HT Hfn) as [Hcount Hitem].
  pose proof (render_downloads_more _ l Hcount Hitem Hr) as Hnew.
  split; [exact Hrec|]. split; [exact Hnew|].
  exact (step_completed st i id url (VObj props) now l _ Hp Hc Hd Hrec Hnew).
Qed.

Lemma X22_witness :
  let st := run (started None)
              [Typed spotify_url; Click; SubmitSettled 0 (Fulfilled (true, job (VStr (js "1"))))] in
  let status := VObj [(js "status", VStr (js "completed")); (js "files", VArr [VStr [233; 46; 109; 112; 51]])] in
  (pending st !! 0%nat = Some (AwaitStatus (VStr (js "1")) spotify_url)
   /\ completed status = true /\ conforming status = true
   /\ downloads st = VArr [] /\ render_downloads (VArr []) = Normal tt)
  /\ statusLog (step st (StatusSettled 0 (Fulfilled status) (js "10:00:03")))
     = [initialized; completed1; completed2]
  /\ urlInput (step st (StatusSettled 0 (Fulfilled status) (js "10:00:03"))) = []
  /\ Idle (step st (StatusSettled 0 (Fulfilled status) (js "10:00:03"))).
Proof.
  intros st status. split; [repeat split; reflexivity|].
  destruct (X22_conforming_answer_is_recorded st 0 (VStr (js "1")) spotify_url status
              (js "10:00:03") [] eq_refl eq_refl eq_refl eq_refl eq_refl)
    as (record & _ & _ & H).
  rewrite H. repeat split; reflexivity.
Defined.
